(** * go-photoslibrary: the paginated streaming fetch and the login callback

    A shallow embedding of the Go packages
    - [api]         (the constants of [api/api.go]),
    - [albums]      ([ListAlbumsRequest], [list], [List]),
    - [mediaitems]  ([ListMediaItemsRequest], [list], [List],
                     [SearchMediaItemRequest], [search], [Search]),
    - [oauth2]      ([listenAndServerRedirect], [NewClient] of
                     [oauth2/oauth2.go]),
    together with the few functions of the Go standard library they call
    ([strconv], [net/url], [reflect.StructTag], [encoding/json],
    [encoding/base64]). *)

From Stdlib Require Import List String Ascii ZArith Lia Bool Arith.
From Stdlib Require Import DecimalString DecimalZ.
Import ListNotations.
Local Open Scope string_scope.
Local Open Scope list_scope.

Set Implicit Arguments.
Set Warnings "-register-all,-notation-for-abbreviation".

(* ================================================================== *)
(** * Errors and results *)

(** A Go [error] value: only its message matters here. *)
Definition error := string.

(** A Go result pair [(v, err)] of which the caller looks at [v] only when
    [err == nil]. *)
Inductive result (A : Type) : Type :=
| Ok (v : A)
| Err (e : error).
Arguments Ok {A} v.
Arguments Err {A} e.

(* ================================================================== *)
(** * The Go standard library, as far as the sources use it *)

Module strconv.

(** [strconv.Itoa]: base-10 text of an [int]. *)
Definition Itoa (i : Z) : string := NilZero.string_of_int (Z.to_int i).

(** [strconv.FormatBool]. *)
Definition FormatBool (b : bool) : string := if b then "true" else "false".

(** [strconv.Atoi] on the texts [Itoa] produces (an optional minus sign
    followed by digits). *)
Definition Atoi (s : string) : result Z :=
  match NilZero.int_of_string s with
  | Some d => Ok (Z.of_int d)
  | None => Err ("strconv.Atoi: parsing: invalid syntax")
  end.

(** [strconv.ParseBool]: the accepted spellings of the Go function. *)
Definition ParseBool (s : string) : result bool :=
  if existsb (String.eqb s) ["1"; "t"; "T"; "TRUE"; "true"; "True"] then Ok true
  else if existsb (String.eqb s) ["0"; "f"; "F"; "FALSE"; "false"; "False"] then Ok false
  else Err ("strconv.ParseBool: parsing: invalid syntax").

End strconv.

Module url.

(** ** Escaping ([shouldEscape] in mode [encodeQueryComponent]) *)

Definition is_alnum (c : ascii) : bool :=
  let n := nat_of_ascii c in
  (((48 <=? n) && (n <=? 57)) || ((65 <=? n) && (n <=? 90))
   || ((97 <=? n) && (n <=? 122)))%nat.

(** Unreserved characters are never escaped; in a query component every
    other byte is. *)
Definition shouldEscape (c : ascii) : bool :=
  negb (is_alnum c
        || Ascii.eqb c "-" || Ascii.eqb c "_" || Ascii.eqb c "."
        || Ascii.eqb c "~").

(** The table ["0123456789ABCDEF"] of [net/url]. *)
Definition upperhex (n : nat) : ascii :=
  if (n <? 10)%nat then ascii_of_nat (48 + n) else ascii_of_nat (55 + n).

(** [url.QueryEscape]. *)
Fixpoint QueryEscape (s : string) : string :=
  match s with
  | EmptyString => EmptyString
  | String c s' =>
      if Ascii.eqb c " " then String "+" (QueryEscape s')
      else if shouldEscape c then
        String "%" (String (upperhex (nat_of_ascii c / 16))
                      (String (upperhex (nat_of_ascii c mod 16))
                         (QueryEscape s')))
      else String c (QueryEscape s')
  end.

(** [unhex]: the value of a hexadecimal digit. *)
Definition unhex (c : ascii) : option nat :=
  let n := nat_of_ascii c in
  if ((48 <=? n) && (n <=? 57))%nat then Some (n - 48)
  else if ((97 <=? n) && (n <=? 102))%nat then Some (n - 97 + 10)
  else if ((65 <=? n) && (n <=? 70))%nat then Some (n - 65 + 10)
  else None.

(** [url.QueryUnescape]. *)
Fixpoint QueryUnescape (s : string) : result string :=
  match s with
  | EmptyString => Ok EmptyString
  | String c s' =>
      if Ascii.eqb c "%" then
        match s' with
        | String h (String l s'') =>
            match unhex h, unhex l with
            | Some a, Some b =>
                match QueryUnescape s'' with
                | Ok r => Ok (String (ascii_of_nat (16 * a + b)) r)
                | Err e => Err e
                end
            | _, _ => Err "invalid URL escape"
            end
        | _ => Err "invalid URL escape"
        end
      else
        match QueryUnescape s' with
        | Ok r => Ok (String (if Ascii.eqb c "+" then " "%char else c) r)
        | Err e => Err e
        end
  end.

(** ** [url.Values]: [map[string][]string] *)

(** The map is kept as an association list with distinct keys; its order
    is immaterial, [Encode] sorts the keys. *)
Definition Values := list (string * list string).

(** [make(url.Values)] *)
Definition make : Values := [].

(** [v.Add(key, value)]: [v[key] = append(v[key], value)]. *)
Fixpoint Add (v : Values) (key value : string) : Values :=
  match v with
  | [] => [(key, [value])]
  | (k, vs) :: v' =>
      if String.eqb k key then (k, vs ++ [value]) :: v'
      else (k, vs) :: Add v' key value
  end.

(** [v.Get(key)]: the first value of the key, or [""]. *)
Fixpoint Get (v : Values) (key : string) : string :=
  match v with
  | [] => ""
  | (k, vs) :: v' =>
      if String.eqb k key then hd "" vs else Get v' key
  end.

(** [v.Has(key)]. *)
Definition Has (v : Values) (key : string) : bool :=
  existsb (fun kv => String.eqb (fst kv) key) v.

(** [slices.Sort(keys)], by insertion. *)
Fixpoint insert_sorted (kv : string * list string) (v : Values) : Values :=
  match v with
  | [] => [kv]
  | kv' :: v' =>
      if String.leb (fst kv) (fst kv') then kv :: kv' :: v'
      else kv' :: insert_sorted kv v'
  end.

Definition sort (v : Values) : Values := fold_right insert_sorted [] v.

(** The [key=value] pairs in the order [Encode] writes them. *)
Definition pairs (v : Values) : list (string * string) :=
  flat_map (fun kv => map (fun x => (fst kv, x)) (snd kv)) (sort v).

(** [strings.Join(elems, sep)] *)
Fixpoint Join (elems : list string) (sep : string) : string :=
  match elems with
  | [] => ""
  | [e] => e
  | e :: elems' => e ++ sep ++ Join elems' sep
  end.

(** One [key=value] of the encoded form. *)
Definition pair_text (kx : string * string) : string :=
  QueryEscape (fst kx) ++ "=" ++ QueryEscape (snd kx).

(** [v.Encode()]: ["bar=baz&foo=quux"], sorted by key. *)
Definition Encode (v : Values) : string :=
  Join (map pair_text (pairs v)) "&".

(** ** [url.ParseQuery] *)

(** [strings.Cut(s, sep)] for a one-byte separator: the text before the
    first [sep], the text after it, and whether [sep] was found. *)
Fixpoint Cut (s : string) (sep : ascii) : string * string * bool :=
  match s with
  | EmptyString => (EmptyString, EmptyString, false)
  | String c s' =>
      if Ascii.eqb c sep then (EmptyString, s', true)
      else let '(b, a, f) := Cut s' sep in (String c b, a, f)
  end.

(** The segments between the ['&'] of a query. *)
Fixpoint segments (s : string) : list string :=
  match s with
  | EmptyString => [EmptyString]
  | String c s' =>
      if Ascii.eqb c "&" then EmptyString :: segments s'
      else match segments s' with
           | seg :: segs => String c seg :: segs
           | [] => [String c EmptyString]
           end
  end.

Fixpoint contains (s : string) (c : ascii) : bool :=
  match s with
  | EmptyString => false
  | String c' s' => Ascii.eqb c' c || contains s' c
  end.

(** One iteration of the loop of [parseQuery]; a bad segment is skipped
    (the Go function remembers the first error and goes on). *)
Definition parse_segment (m : Values) (seg : string) : Values :=
  if contains seg ";" then m
  else if String.eqb seg "" then m
  else
    let '(key, value, _) := Cut seg "=" in
    match QueryUnescape key, QueryUnescape value with
    | Ok k, Ok x => Add m k x
    | _, _ => m
    end.

Definition ParseQuery (query : string) : Values :=
  fold_left parse_segment (segments query) make.

(** [url.JoinPath] on clean relative elements: joined with ['/']. *)
Fixpoint JoinPath (base : string) (elem : list string) : result string :=
  match elem with
  | [] => Ok base
  | e :: elem' => JoinPath (base ++ "/" ++ e) elem'
  end.

(** [url.URL], the fields the sources set. *)
Record URL := {
  Scheme : string;
  Host : string;
  Path : string;
  RawQuery : string
}.

(** [u.String()] for a URL with scheme, host and a relative path. *)
Definition String_ (u : URL) : string :=
  u.(Scheme) ++ "://" ++ u.(Host) ++ "/" ++ u.(Path)
    ++ (if String.eqb u.(RawQuery) "" then "" else "?" ++ u.(RawQuery)).

End url.

(** The double quote, written by its code so that no literal has to double
    it. *)
Definition dquote : ascii := ascii_of_nat 34.
Definition backslash : ascii := ascii_of_nat 92.

(** A struct tag as the source writes it between back quotes: the key, a
    colon and the quoted value; and one whose closing quote is missing. *)
Definition tag (key v : string) : string :=
  (key ++ ":" ++ String dquote v ++ String dquote "")%string.
Definition tag_unclosed (key v : string) : string :=
  (key ++ ":" ++ String dquote v)%string.

Module reflect.

(** ** [reflect.StructTag] *)

Fixpoint skip_spaces (s : string) : string :=
  match s with
  | String c s' => if Ascii.eqb c " " then skip_spaces s' else s
  | EmptyString => s
  end.

(** "Scan to colon. A space, a quote or a control character is a syntax
    error": the longest prefix of name characters, and the rest. *)
Fixpoint scan_name (s : string) : string * string :=
  match s with
  | EmptyString => (EmptyString, EmptyString)
  | String c s' =>
      let n := nat_of_ascii c in
      if ((32 <? n) && negb (Ascii.eqb c ":") && negb (Ascii.eqb c dquote)
          && negb (n =? 127))%nat
      then let '(nm, r) := scan_name s' in (String c nm, r)
      else (EmptyString, s)
  end.

(** "Scan quoted string to find value", started after the opening quote:
    the text up to the closing quote and what follows it, or [None] when
    the tag ends before a closing quote. *)
Fixpoint scan_quoted (s : string) : option (string * string) :=
  match s with
  | EmptyString => None
  | String c s' =>
      if Ascii.eqb c dquote then Some (EmptyString, s')
      else if Ascii.eqb c backslash then
        match s' with
        | String c' s'' =>
            match scan_quoted s'' with
            | Some (v, r) => Some (String c (String c' v), r)
            | None => None
            end
        | EmptyString => None
        end
      else
        match scan_quoted s' with
        | Some (v, r) => Some (String c v, r)
        | None => None
        end
  end.

(** [strconv.Unquote] of the quoted text, for the escapes of a quote and
    of a backslash; another escape is an error here. *)
Fixpoint unquote (s : string) : option string :=
  match s with
  | EmptyString => Some EmptyString
  | String c s' =>
      if Ascii.eqb c backslash then
        match s' with
        | String c' s'' =>
            if Ascii.eqb c' dquote || Ascii.eqb c' backslash then
              option_map (String c') (unquote s'')
            else None
        | EmptyString => None
        end
      else option_map (String c) (unquote s')
  end.

(** The loop of [StructTag.Lookup]; every round consumes a byte of the tag,
    so its length is fuel enough. *)
Fixpoint lookup_loop (fuel : nat) (tag key : string) : option string :=
  match fuel with
  | O => None
  | S fuel' =>
      let tag := skip_spaces tag in
      if String.eqb tag "" then None
      else
        let '(name, rest) := scan_name tag in
        if String.eqb name "" then None
        else
          match rest with
          | String c1 (String c2 rest') =>
              if Ascii.eqb c1 ":" && Ascii.eqb c2 dquote then
                match scan_quoted rest' with
                | None => None
                | Some (qvalue, tag') =>
                    if String.eqb key name then unquote qvalue
                    else lookup_loop fuel' tag' key
                end
              else None
          | _ => None
          end
  end.

(** [tag.Lookup(key)] *)
Definition Lookup (tag key : string) : option string :=
  lookup_loop (String.length tag) tag key.

(** [tag.Get(key)] *)
Definition Get (tag key : string) : string :=
  match Lookup tag key with Some v => v | None => "" end.

End reflect.

Module json.

(** ** JSON values

    A JSON text is identified with the value it denotes: the printer and
    the parser of [encoding/json] are not modelled, numbers are the
    integers, strings are valid UTF-8. *)
Inductive value : Type :=
| Null
| Bool (b : bool)
| Number (z : Z)
| Str (s : string)
| Array (l : list value)
| Object (members : list (string * value)).

(** ** The reflective view of a Go struct *)

(** A field value of the kinds the request structs have. *)
Inductive govalue : Type :=
| GoString (s : string)
| GoInt (z : Z)
| GoBool (b : bool)
| GoStruct (fields : list (string * string * govalue)).

(** A struct field: its Go name, its tag, its value. *)
Definition field : Type := string * string * govalue.

(** [parseTag]: the name before the first comma, the options after it. *)
Definition parseTag (tag : string) : string * string :=
  let '(name, opts, _) := url.Cut tag "," in (name, opts).

(** [tagOptions.Contains]: [optionName] is one of the comma-separated
    options. *)
Fixpoint options (opts : string) : list string :=
  match opts with
  | EmptyString => [EmptyString]
  | String c s' =>
      if Ascii.eqb c "," then EmptyString :: options s'
      else match options s' with
           | o :: os => String c o :: os
           | [] => [String c EmptyString]
           end
  end.

Definition Contains (opts optionName : string) : bool :=
  if String.eqb opts "" then false
  else existsb (String.eqb optionName) (options opts).

(** [isValidTag]: letters, digits and some punctuation. *)
Definition valid_tag_char (c : ascii) : bool :=
  url.is_alnum c
  || url.contains "!#$%&()*+-./:;<=>?@[]^_{|}~ " c.

Fixpoint all_chars (p : ascii -> bool) (s : string) : bool :=
  match s with
  | EmptyString => true
  | String c s' => p c && all_chars p s'
  end.

Definition isValidTag (s : string) : bool :=
  negb (String.eqb s "") && all_chars valid_tag_char s.

(** What [typeFields] derives for a field: [None] when the field is
    skipped (tag ["-"]), else its JSON name and whether [omitempty] is
    set. *)
Definition field_info (goName tag : string) : option (string * bool) :=
  let tag := reflect.Get tag "json" in
  if String.eqb tag "-" then None
  else
    let '(name, opts) := parseTag tag in
    let name := if isValidTag name then name else "" in
    Some (if String.eqb name "" then goName else name,
          Contains opts "omitempty").

(** [isEmptyValue]: a struct is never empty. *)
Definition isEmptyValue (v : govalue) : bool :=
  match v with
  | GoString s => String.eqb s ""
  | GoInt z => Z.eqb z 0
  | GoBool b => negb b
  | GoStruct _ => false
  end.

(** [json.Marshal] of a field value; a struct becomes an object with its
    fields in declaration order. *)
Fixpoint marshal (v : govalue) : value :=
  match v with
  | GoString s => Str s
  | GoInt z => Number z
  | GoBool b => Bool b
  | GoStruct fields =>
      Object
        ((fix members (fs : list field) : list (string * value) :=
            match fs with
            | [] => []
            | (goName, tag, fv) :: fs' =>
                match field_info goName tag with
                | None => members fs'
                | Some (name, omitEmpty) =>
                    if omitEmpty && isEmptyValue fv then members fs'
                    else (name, marshal fv) :: members fs'
                end
            end) fields)
  end.

(** ** Decoding into a struct *)

(** ASCII case folding, as [foldName] does on the names met here. *)
Definition lower (c : ascii) : ascii :=
  let n := nat_of_ascii c in
  if ((65 <=? n) && (n <=? 90))%nat then ascii_of_nat (n + 32) else c.

Fixpoint fold (s : string) : string :=
  match s with
  | EmptyString => EmptyString
  | String c s' => String (lower c) (fold s')
  end.

(** The JSON names of the fields of a struct, with their Go names. *)
Definition names (desc : list (string * string)) : list (string * string) :=
  flat_map (fun d => match field_info (fst d) (snd d) with
                     | Some (name, _) => [(name, fst d)]
                     | None => []
                     end) desc.

(** The field a key designates: an exact match of the JSON name first, a
    match up to case otherwise. *)
Definition find_field (desc : list (string * string)) (key : string)
  : option string :=
  match find (fun n => String.eqb (fst n) key) (names desc) with
  | Some n => Some (snd n)
  | None =>
      match find (fun n => String.eqb (fold (fst n)) (fold key)) (names desc) with
      | Some n => Some (snd n)
      | None => None
      end
  end.

Section Unmarshal.
Variable T : Type.
(** The declared fields (Go name, tag) and the assignment of a decoded
    value to the field of that Go name. *)
Variable desc : list (string * string).
Variable set : T -> string -> value -> result T.

Fixpoint assign (t : T) (members : list (string * value)) : result T :=
  match members with
  | [] => Ok t
  | (key, v) :: members' =>
      match find_field desc key with
      | None => assign t members'
      | Some goName =>
          match v with
          | Null => assign t members'
          | _ => match set t goName v with
                 | Ok t' => assign t' members'
                 | Err e => Err e
                 end
          end
      end
  end.

(** [json.NewDecoder(r).Decode(&t)] on a body holding the value [v]. *)
Definition Decode (t : T) (v : value) : result T :=
  match v with
  | Object members => assign t members
  | Null => Ok t
  | _ => Err "json: cannot unmarshal into Go value of struct type"
  end.
End Unmarshal.

Definition type_error {T} : result T :=
  Err "json: cannot unmarshal value into Go struct field".

End json.

(* ================================================================== *)
(** * [net/http]: requests, responses, the client, and the I/O a fetch does *)

Module http.

Definition MethodGet : string := "GET".
Definition StatusOK : Z := 200.
Definition StatusUnauthorized : Z := 401.

(** [http.Request]: the method, the URL and the body, here the JSON value
    the body holds ([None] for a [nil] body). *)
Record Request := {
  Method : string;
  URL : url.URL;
  ReqBody : option json.value
}.

(** An [io.ReadCloser] holding a response body, seen through what the
    code does with it: [decoded] is what [json.NewDecoder(body).Decode]
    yields into a value of type [R], [close_err] what [body.Close()]
    returns. *)
Record ReadCloser (R : Type) := {
  decoded : result R;
  close_err : option error
}.

(** [http.Response] *)
Record Response (R : Type) := {
  StatusCode : Z;
  Body : ReadCloser R
}.

(** [client.Do]: the transport, an injected capability. *)
Definition Client (R : Type) : Type := Request -> result (Response R).

(** The transport answered and the body of its answer decodes. *)
Definition answered_and_decoded {R : Type} (a : result (Response R)) : bool :=
  match a with
  | Ok resp => match decoded (Body resp) with Ok _ => true | Err _ => false end
  | Err _ => false
  end.

End http.

(** What a single-page fetch does to the outside world. *)
Inductive effect : Type :=
| EDo (req : http.Request)     (** [client.Do(req)] was called *)
| EClose.                      (** [resp.Body.Close()] was called *)

(** A Go function that performs I/O and returns [(v, err)]: the effects it
    performed, in order, and its result.  [bind] is the
    [if err != nil { return ..., err }] of the sources. *)
Definition io (A : Type) : Type := (list effect * result A)%type.

Definition ret {A} (v : A) : io A := ([], Ok v).

Definition lift {A} (r : result A) : io A := ([], r).

Definition bind {A B} (m : io A) (k : A -> io B) : io B :=
  match m with
  | (l, Ok v) => let '(l', r) := k v in (l ++ l', r)
  | (l, Err e) => (l, Err e)
  end.

Notation "x <- m ;; k" := (bind m (fun x => k))
  (at level 61, m at next level, right associativity).

(** [http.NewRequestWithContext(ctx, method, url, body)]: the URLs built by
    the sources parse back to themselves. *)
Definition NewRequestWithContext (method : string) (u : url.URL)
    (body : option json.value) : io http.Request :=
  ret {| http.Method := method; http.URL := u; http.ReqBody := body |}.

(** [client.Do(req)] *)
Definition Do {R} (client : http.Client R) (req : http.Request)
  : io (http.Response R) :=
  ([EDo req], client req).

(** [json.NewDecoder(resp.Body).Decode(&v)] *)
Definition Decode {R} (body : http.ReadCloser R) : io R :=
  lift (http.decoded body).

(** [resp.Body.Close()] *)
Definition Close {R} (body : http.ReadCloser R) : io unit :=
  ([EClose], match http.close_err body with
             | None => Ok tt
             | Some e => Err e
             end).

(* ================================================================== *)
(** * The pagination goroutine

    [albums.List], [mediaitems.List] and [mediaitems.Search] are the same
    function up to the types and the fetch they call:
<<
      itemCh := make(chan Item); errCh := make(chan error)
      go func(req Req) {
          defer close(itemCh)
          for {
              select { case <-ctx.Done(): return; default: }
              resp, err := fetch(ctx, client, req)
              if err != nil { errCh <- err; return }
              for _, item := range resp.Items {
                  select { case <-ctx.Done(): return; case itemCh <- item: }
              }
              if resp.NextPageToken == "" { return }
              req.PageToken = resp.NextPageToken
          }
      }(request)
      return itemCh, errCh
>>
    The goroutine is a machine that moves one step at a time; what it
    cannot decide alone (the answer of the transport, whether the context
    is done, whether the consumer is receiving, which ready case a [select]
    picks) is given to each step by the environment. *)

Module pagination.

(** ** Unbuffered channels *)

(** A channel as the goroutine and its consumer see it: whether it is
    closed and what has been received from it so far. *)
Record chan (A : Type) := {
  closed : bool;
  received : list A
}.

(** [make(chan A)] *)
Definition make_chan (A : Type) : chan A :=
  {| closed := false; received := [] |}.

(** [ch <- v], completed by a receiver; on a closed channel it panics
    ([None]). *)
Definition send {A} (ch : chan A) (v : A) : option (chan A) :=
  if closed ch then None
  else Some {| closed := false; received := received ch ++ [v] |}.

(** [close(ch)]; closing twice panics. *)
Definition close {A} (ch : chan A) : option (chan A) :=
  if closed ch then None
  else Some {| closed := true; received := received ch |}.

(** How the goroutine ended. *)
Inductive outcome := Done | Failed | Cancelled.

Section Driver.

Variables Req Resp Item : Type.
(** The single-page fetch, [list] or [search]. *)
Variable fetch : http.Client Resp -> Req -> io Resp.
(** [resp.Albums] or [resp.MediaItems], and [resp.NextPageToken]. *)
Variable items : Resp -> list Item.
Variable next_token : Resp -> string.
(** [req.PageToken = tok] *)
Variable set_token : Req -> string -> Req.

(** What the goroutine does that can be watched from outside. *)
Inductive event : Type :=
| EvIO (e : effect)           (** an effect of the fetch *)
| EvSend (x : Item)           (** [itemCh <- x] completed *)
| EvSendErr (e : error)       (** [errCh <- err] completed *)
| EvClose.                    (** [close(itemCh)] *)

(** Where the goroutine stands. *)
Inductive pc : Type :=
| AtPoll                                   (** at the first [select] *)
| AtFetch                                  (** about to call the fetch *)
| AtSendErr (err : error)                  (** blocked in [errCh <- err] *)
| AtRange (resp : Resp) (rest : list Item) (** in the [range], [rest] to go *)
| AtReturn (o : outcome)                   (** returned, [defer] pending *)
| Exited (o : outcome).                    (** the goroutine is gone *)

Record state := {
  at_ : pc;
  req : Req;                   (** the goroutine's copy of the request *)
  ctx_done : bool;             (** whether [ctx.Done()] is closed *)
  itemCh : chan Item;
  errCh : chan error;
  trace : list event           (** what happened so far, oldest first *)
}.

(** The state right after [List] or [Search] returned its channels. *)
Definition start (request : Req) : state :=
  {| at_ := AtPoll; req := request; ctx_done := false;
     itemCh := make_chan Item; errCh := make_chan error; trace := [] |}.

(** The moves of the environment and the scheduler. *)
Inductive oracle : Type :=
| Cancel                                    (** the context is cancelled *)
| Tick                                      (** the goroutine runs on *)
| Answer (a : result (http.Response Resp))  (** the transport answers *)
| RecvItem                                  (** the consumer receives an item *)
| RecvErr                                   (** the consumer receives the error *)
| PickDone.                                 (** [select] takes [<-ctx.Done()] *)

Definition goto (s : state) (p : pc) : state :=
  {| at_ := p; req := req s; ctx_done := ctx_done s;
     itemCh := itemCh s; errCh := errCh s; trace := trace s |}.

Definition log (s : state) (evs : list event) : state :=
  {| at_ := at_ s; req := req s; ctx_done := ctx_done s;
     itemCh := itemCh s; errCh := errCh s; trace := trace s ++ evs |}.

(** One step; [None] when the move is not possible in that state (or
    when the goroutine would panic). *)
Definition step (o : oracle) (s : state) : option state :=
  match o, at_ s with
  | Cancel, _ =>
      Some {| at_ := at_ s; req := req s; ctx_done := true;
              itemCh := itemCh s; errCh := errCh s; trace := trace s |}
  | Tick, AtPoll =>
      (* select { case <-ctx.Done(): return; default: } *)
      if ctx_done s then Some (goto s (AtReturn Cancelled))
      else Some (goto s AtFetch)
  | Answer a, AtFetch =>
      (* resp, err := fetch(ctx, client, req) *)
      let '(effs, r) := fetch (fun _ => a) (req s) in
      let s := log s (map EvIO effs) in
      match r with
      | Err e => Some (goto s (AtSendErr e))
      | Ok resp => Some (goto s (AtRange resp (items resp)))
      end
  | RecvErr, AtSendErr e =>
      (* errCh <- err; return *)
      match send (errCh s) e with
      | None => None
      | Some ch =>
          Some {| at_ := AtReturn Failed; req := req s;
                  ctx_done := ctx_done s; itemCh := itemCh s;
                  errCh := ch; trace := trace s ++ [EvSendErr e] |}
      end
  | RecvItem, AtRange resp (x :: rest) =>
      (* case itemCh <- item: *)
      match send (itemCh s) x with
      | None => None
      | Some ch =>
          Some {| at_ := AtRange resp rest; req := req s;
                  ctx_done := ctx_done s; itemCh := ch;
                  errCh := errCh s; trace := trace s ++ [EvSend x] |}
      end
  | PickDone, AtRange resp (x :: rest) =>
      (* case <-ctx.Done(): return *)
      if ctx_done s then Some (goto s (AtReturn Cancelled)) else None
  | Tick, AtRange resp [] =>
      (* if resp.NextPageToken == "" { return }
         req.PageToken = resp.NextPageToken *)
      if String.eqb (next_token resp) "" then Some (goto s (AtReturn Done))
      else
        Some {| at_ := AtPoll; req := set_token (req s) (next_token resp);
                ctx_done := ctx_done s; itemCh := itemCh s;
                errCh := errCh s; trace := trace s |}
  | Tick, AtReturn o =>
      (* defer close(itemCh) *)
      match close (itemCh s) with
      | None => None
      | Some ch =>
          Some {| at_ := Exited o; req := req s; ctx_done := ctx_done s;
                  itemCh := ch; errCh := errCh s;
                  trace := trace s ++ [EvClose] |}
      end
  | _, _ => None
  end.

(** A run under a schedule. *)
Fixpoint run (os : list oracle) (s : state) : option state :=
  match os with
  | [] => Some s
  | o :: os' =>
      match step o s with
      | Some s' => run os' s'
      | None => None
      end
  end.

(** ** Readings of a schedule and of a trace *)

(** The answers the transport gave, in order. *)
Fixpoint answers (os : list oracle) : list (result (http.Response Resp)) :=
  match os with
  | [] => []
  | Answer a :: os' => a :: answers os'
  | _ :: os' => answers os'
  end.

(** The context is never cancelled during the schedule. *)
Fixpoint no_cancel (os : list oracle) : bool :=
  match os with
  | [] => true
  | Cancel :: _ => false
  | _ :: os' => no_cancel os'
  end.

(** The items sent, the errors sent, the requests executed. *)
Fixpoint sent (tr : list event) : list Item :=
  match tr with
  | [] => []
  | EvSend x :: tr' => x :: sent tr'
  | _ :: tr' => sent tr'
  end.

Fixpoint errors (tr : list event) : list error :=
  match tr with
  | [] => []
  | EvSendErr e :: tr' => e :: errors tr'
  | _ :: tr' => errors tr'
  end.

Fixpoint fetches (tr : list event) : list http.Request :=
  match tr with
  | [] => []
  | EvIO (EDo r) :: tr' => r :: fetches tr'
  | _ :: tr' => fetches tr'
  end.

Fixpoint closes (tr : list event) : nat :=
  match tr with
  | [] => 0
  | EvClose :: tr' => S (closes tr')
  | _ :: tr' => closes tr'
  end.

Definition exited (s : state) : bool :=
  match at_ s with Exited _ => true | _ => false end.

(** The error channel is open and the item channel is closed exactly
    when the goroutine has exited; the channels hold what the trace
    says was sent; the item channel was closed at most once. *)
Definition consistent (s : state) : Prop :=
  closed (errCh s) = false
  /\ closed (itemCh s) = exited s
  /\ received (itemCh s) = sent (trace s)
  /\ received (errCh s) = errors (trace s)
  /\ closes (trace s) = (if exited s then 1 else 0)%nat.

(** What the place of the goroutine says about its trace: an error has
    been sent exactly when the goroutine has returned [Failed], it is then
    the last thing that happened before the item channel was closed; and
    a goroutine returns [Cancelled] only under a cancelled context. *)
Definition outcome_ok (s : state) : Prop :=
  match at_ s with
  | AtReturn Failed =>
      exists tr e, trace s = tr ++ [EvSendErr e] /\ errors tr = [] /\ closes tr = 0%nat
  | Exited Failed =>
      exists tr e, trace s = tr ++ [EvSendErr e; EvClose]
                   /\ errors tr = [] /\ closes tr = 0%nat
  | AtReturn Cancelled | Exited Cancelled =>
      errors (trace s) = [] /\ ctx_done s = true
  | _ => errors (trace s) = []
  end.

(** A response whose body decodes to [page] and closes without error. *)
Definition page_response (page : Resp) : result (http.Response Resp) :=
  Ok {| http.StatusCode := http.StatusOK;
        http.Body := {| http.decoded := Ok page; http.close_err := None |} |}.

(** ** The run the answers determine

    What an uncancelled goroutine standing at the top of its loop with
    the request [r] still does, given the answers the transport will
    give: the reference the machine is compared with. *)
Fixpoint to_come (r : Req) (A : list (result (http.Response Resp)))
  : list event :=
  match A with
  | [] => []
  | a :: A' =>
      let '(effs, res) := fetch (fun _ => a) r in
      map EvIO effs ++
      match res with
      | Err e => [EvSendErr e; EvClose]
      | Ok resp =>
          map EvSend (items resp) ++
          if String.eqb (next_token resp) "" then [EvClose]
          else to_come (set_token r (next_token resp)) A'
      end
  end.

(** The same from any place of the program. *)
Definition to_come_at (p : pc) (r : Req)
    (A : list (result (http.Response Resp))) : list event :=
  match p with
  | AtPoll | AtFetch => to_come r A
  | AtSendErr e => [EvSendErr e; EvClose]
  | AtRange resp rest =>
      map EvSend rest ++
      if String.eqb (next_token resp) "" then [EvClose]
      else to_come (set_token r (next_token resp)) A
  | AtReturn _ => [EvClose]
  | Exited _ => []
  end.

(** The schedule under which the consumer takes everything and the
    context is never cancelled. *)
Fixpoint eager (r : Req) (A : list (result (http.Response Resp)))
  : list oracle :=
  match A with
  | [] => []
  | a :: A' =>
      Tick :: Answer a ::
      match snd (fetch (fun _ => a) r) with
      | Err e => [RecvErr; Tick]
      | Ok resp =>
          repeat RecvItem (List.length (items resp)) ++
          Tick ::
          if String.eqb (next_token resp) "" then [Tick]
          else eager (set_token r (next_token resp)) A'
      end
  end.

(** The answers are those of a whole run: the last one ends it (an error,
    or a page without token), none before does. *)
Fixpoint complete (r : Req) (A : list (result (http.Response Resp))) : Prop :=
  match A with
  | [] => False
  | a :: A' =>
      match snd (fetch (fun _ => a) r) with
      | Err _ => A' = []
      | Ok resp =>
          if String.eqb (next_token resp) "" then A' = []
          else complete (set_token r (next_token resp)) A'
      end
  end.

(** An answer on which the fetch yields a page that carries a token. *)
Definition page_with_token (a : result (http.Response Resp)) : Prop :=
  forall r, exists resp,
    snd (fetch (fun _ => a) r) = Ok resp /\ next_token resp <> "".

(** The goroutine has left its loop. *)
Definition returned (s : state) : bool :=
  match at_ s with
  | AtReturn _ | Exited _ => true
  | _ => false
  end.

(** The goroutine is in its loop and will go round once more. *)
Definition in_loop (s : state) : Prop :=
  match at_ s with
  | AtPoll | AtFetch => True
  | AtRange resp _ => next_token resp <> ""
  | _ => False
  end.

(** The items of the current page not sent yet. *)
Definition rest_of (s : state) : list Item :=
  match at_ s with
  | AtRange _ rest => rest
  | _ => []
  end.

(** The goroutine is neither fetching nor handing over an error. *)
Definition winding (s : state) : bool :=
  match at_ s with
  | AtFetch | AtSendErr _ => false
  | _ => true
  end.

(** Every page but the last carries a token, the last one none. *)
Fixpoint well_paged (pages : list Resp) : Prop :=
  match pages with
  | [] => False
  | [p] => next_token p = ""
  | p :: ps => next_token p <> "" /\ well_paged ps
  end.

(** The request after the pages [pages] have been walked through. *)
Fixpoint req_after (r : Req) (pages : list Resp) : Req :=
  match pages with
  | [] => r
  | p :: ps => req_after (set_token r (next_token p)) ps
  end.

End Driver.

Arguments page_response {Resp} page.

(** ** The three paginated operations *)

(** What distinguishes one operation from another; [request] is the
    request its fetch hands to the transport. *)
Record operation := {
  Req : Type;
  Resp : Type;
  Item : Type;
  fetch : http.Client Resp -> Req -> io Resp;
  items : Resp -> list Item;
  next_token : Resp -> string;
  set_token : Req -> string -> Req;
  request : Req -> http.Request
}.

Definition State (P : operation) : Type := state (Req P) (Resp P) (Item P).
Definition Oracle (P : operation) : Type := oracle (Resp P).
Definition Event (P : operation) : Type := event (Item P).

(** The state the goroutine of operation [P], started on [r], reaches
    under the schedule [os]. *)
Definition go (P : operation) (r : Req P) (os : list (Oracle P))
  : option (State P) :=
  run (fetch P) (items P) (next_token P) (set_token P) os
    (start (Resp P) (Item P) r).
Arguments go : clear implicits.

(** The events of fetching the pages [pages] one after the other from the
    request [r] on, each page wholly sent before the next is asked for. *)
Fixpoint page_events (P : operation) (r : Req P) (pages : list (Resp P))
  : list (Event P) :=
  match pages with
  | [] => []
  | p :: ps =>
      EvIO _ (EDo (request P r)) :: EvIO _ EClose ::
      map (@EvSend _) (items P p)
      ++ page_events P (set_token P r (next_token P p)) ps
  end.
Arguments page_events : clear implicits.

End pagination.

(* ================================================================== *)
(** * [bufio.Writer] over a [bytes.Buffer] *)

Module bufio.

Definition defaultBufSize : nat := 4096.

(** The writer and the buffer under it: [under] is what has reached the
    [bytes.Buffer], [held] what the writer still holds ([b.buf[:b.n]]). *)
Record Writer := {
  under : string;
  held : string
}.

(** [bufio.NewWriter(buf)] over a buffer holding [contents]. *)
Definition NewWriter (contents : string) : Writer :=
  {| under := contents; held := "" |}.

Definition Buffered (b : Writer) : nat := String.length (held b).

Definition Available (b : Writer) : nat := defaultBufSize - Buffered b.

(** [b.Flush()]; a [bytes.Buffer] takes everything and returns no error. *)
Definition Flush (b : Writer) : Writer :=
  {| under := under b ++ held b; held := "" |}.

(** The loop of [Write]:
<<
      for len(p) > b.Available() && b.err == nil {
          if b.Buffered() == 0 { n, b.err = b.wr.Write(p) }
          else { n = copy(b.buf[b.n:], p); b.n += n; b.Flush() }
          p = p[n:]
      }
>>
    Two rounds are enough (after a flush the buffer is empty), the fuel
    allows more. *)
Fixpoint write_loop (fuel : nat) (b : Writer) (p : string) : Writer * string :=
  match fuel with
  | O => (b, p)
  | S fuel' =>
      if (Available b <? String.length p)%nat then
        if (Buffered b =? 0)%nat then
          write_loop fuel' {| under := under b ++ p; held := held b |} ""
        else
          let n := Available b in
          write_loop fuel'
            (Flush {| under := under b; held := held b ++ substring 0 n p |})
            (substring n (String.length p - n) p)
      else (b, p)
  end.

(** [b.Write(p)]: the loop, then [copy(b.buf[b.n:], p)]. *)
Definition Write (b : Writer) (p : string) : Writer :=
  let '(b', p') := write_loop (2 + String.length p) b p in
  {| under := under b'; held := held b' ++ p' |}.

End bufio.

(* ================================================================== *)
(** * [api/api.go] *)

Module api.
Definition PhotosLibraryScheme := "https".
Definition PhotosLibraryHost := "photoslibrary.googleapis.com".
Definition PhotosLibraryVersion := "v1".

Definition DefaultPageSize : Z := 20.
Definition MaxPageSize : Z := 50.

Definition PageSizeQueryKey := "pageSize".
Definition PageTokenQueryKey := "pageToken".
Definition ExcludeNonAppCreatedDataQueryKey := "excludeNonAppCreatedData".
End api.

(** The query string of a list request, parameter by parameter: the
    exclusion flag always, the page size when it is positive, the page
    token when it is not empty. *)
Definition list_query (size : Z) (token : string) (exclude : bool) : string :=
  url.Join
    ([("excludeNonAppCreatedData=" ++ strconv.FormatBool exclude)%string]
     ++ (if (size >? 0)%Z
         then [("pageSize=" ++ url.QueryEscape (strconv.Itoa size))%string]
         else [])
     ++ (if String.eqb token "" then []
         else [("pageToken=" ++ url.QueryEscape token)%string]))
    "&".

(* ================================================================== *)
(** * [albums/albums.go] *)

Module albums.

Definition ListAlbumsPath := "albums".

Record SharedAlbumOptions := {
  IsCollaborative : bool;
  IsCommentable : bool
}.

Record ShareInfo := {
  SharedAlbumOptions_ : SharedAlbumOptions;
  ShareableURL : string;
  ShareToken : string;
  IsJoined : bool;
  IsOwned : bool;
  IsJoinable : bool
}.

Record Album := {
  ID : string;
  Title : string;
  ProductURL : string;
  IsWriteable : bool;
  ShareInfo_ : option ShareInfo;
  MediaItemsCount : string;
  CoverPhotoBaseURL : string;
  CoverPhotoMediaItemID : string
}.

Record ListAlbumsRequest := {
  PageSize : Z;
  PageToken : string;
  ExcludeNonAppCreatedData : bool
}.

Record ListAlbumsResponse := {
  Albums : list Album;
  NextPageToken : string
}.

(** The query parameters [list] collects in [urlValues]. *)
Definition list_values (listAlbumsRequest : ListAlbumsRequest) : url.Values :=
  let urlValues := url.make in
  let urlValues :=
    if (listAlbumsRequest.(PageSize) >? 0)%Z
    then url.Add urlValues api.PageSizeQueryKey
           (strconv.Itoa listAlbumsRequest.(PageSize))
    else urlValues in
  let urlValues :=
    if negb (String.eqb listAlbumsRequest.(PageToken) "")
    then url.Add urlValues api.PageTokenQueryKey listAlbumsRequest.(PageToken)
    else urlValues in
  url.Add urlValues api.ExcludeNonAppCreatedDataQueryKey
    (strconv.FormatBool listAlbumsRequest.(ExcludeNonAppCreatedData)).

(** [func list(ctx, client, listAlbumsRequest) (ListAlbumsResponse, error)] *)
Definition list (client : http.Client ListAlbumsResponse)
    (listAlbumsRequest : ListAlbumsRequest) : io ListAlbumsResponse :=
  urlPath <- lift (url.JoinPath api.PhotosLibraryVersion [ListAlbumsPath]) ;;
  let urlValues := list_values listAlbumsRequest in
  let rawURL := {| url.Scheme := api.PhotosLibraryScheme;
                   url.Host := api.PhotosLibraryHost;
                   url.Path := urlPath;
                   url.RawQuery := url.Encode urlValues |} in
  req <- NewRequestWithContext http.MethodGet rawURL None ;;
  resp <- Do client req ;;
  listAlbumsResponse <- Decode (http.Body resp) ;;
  _ <- Close (http.Body resp) ;;
  ret listAlbumsResponse.

(** [req.PageToken = albumsResp.NextPageToken] *)
Definition set_PageToken (req : ListAlbumsRequest) (tok : string) :=
  {| PageSize := req.(PageSize);
     PageToken := tok;
     ExcludeNonAppCreatedData := req.(ExcludeNonAppCreatedData) |}.

(** The reading of the query of a list request back into a
    [ListAlbumsRequest].  The repository has no such function (the server
    does the reading); this is the reading the Go standard library gives:
    [url.ParseQuery], [Values.Get], [strconv.Atoi], [strconv.ParseBool],
    an absent key leaving the zero value of its field. *)
Definition parse_query (rawQuery : string) : result ListAlbumsRequest :=
  let q := url.ParseQuery rawQuery in
  match (if url.Has q api.PageSizeQueryKey
         then strconv.Atoi (url.Get q api.PageSizeQueryKey) else Ok 0%Z),
        (if url.Has q api.ExcludeNonAppCreatedDataQueryKey
         then strconv.ParseBool (url.Get q api.ExcludeNonAppCreatedDataQueryKey)
         else Ok false)
  with
  | Ok size, Ok exclude =>
      Ok {| PageSize := size;
            PageToken := url.Get q api.PageTokenQueryKey;
            ExcludeNonAppCreatedData := exclude |}
  | Err e, _ => Err e
  | _, Err e => Err e
  end.

(** The request [list] hands to [client.Do]. *)
Definition request (listAlbumsRequest : ListAlbumsRequest) : http.Request :=
  {| http.Method := http.MethodGet;
     http.URL := {| url.Scheme := api.PhotosLibraryScheme;
                    url.Host := api.PhotosLibraryHost;
                    url.Path := "v1/albums";
                    url.RawQuery := url.Encode (list_values listAlbumsRequest) |};
     http.ReqBody := None |}.

Definition List_op : pagination.operation :=
  {| pagination.fetch := list;
     pagination.items := Albums;
     pagination.next_token := NextPageToken;
     pagination.set_token := set_PageToken;
     pagination.request := request |}.

(** [func List(ctx, client, listAlbumsRequest) (<-chan Album, <-chan error)]:
    the state the goroutine started by [List] reaches under a schedule. *)
Definition List (listAlbumsRequest : ListAlbumsRequest)
    (os : Datatypes.list (pagination.Oracle List_op)) :=
  pagination.go List_op listAlbumsRequest os.

(** ** [Get] and [Create] *)

Definition GetAlbumPath := "albums".
Definition CreateAlbumPath := "albums".

Record GetAlbumRequest := { AlbumID : string }.

Record GetAlbumResponse := { GetAlbum : Album }.

Record CreateAlbumRequest := { CreateAlbum : Album }.

Record CreateAlbumResponse := { CreatedAlbum : Album }.

(** The zero [Album], the value of [getAlbumResponse.Album] before anything
    was decoded into it. *)
Definition zero_Album : Album :=
  {| ID := ""; Title := ""; ProductURL := ""; IsWriteable := false;
     ShareInfo_ := None; MediaItemsCount := ""; CoverPhotoBaseURL := "";
     CoverPhotoMediaItemID := "" |}.

Section Get.

(** [url.JoinPath] on an identifier chosen by the caller cleans and
    unescapes the path; it is left to the user of the model. *)
Variable url_JoinPath : string -> Datatypes.list string -> result string.

(** [func Get(ctx, client, getAlbumRequest) (Album, error)]: the effects,
    and the two values returned. *)
Definition Get (client : http.Client GetAlbumResponse)
    (getAlbumRequest : GetAlbumRequest)
  : Datatypes.list effect * (Album * option error) :=
  match url_JoinPath api.PhotosLibraryVersion
          [GetAlbumPath; getAlbumRequest.(AlbumID)] with
  | Err err => ([], (zero_Album, Some err))
  | Ok urlPath =>
      let rawURL := {| url.Scheme := api.PhotosLibraryScheme;
                       url.Host := api.PhotosLibraryHost;
                       url.Path := urlPath;
                       url.RawQuery := "" |} in
      let req := {| http.Method := http.MethodGet; http.URL := rawURL;
                    http.ReqBody := None |} in
      match client req with
      | Err err => ([EDo req], (zero_Album, Some err))
      | Ok resp =>
          match http.decoded (http.Body resp) with
          | Err err => ([EDo req], (zero_Album, Some err))
          | Ok getAlbumResponse =>
              (* return getAlbumResponse.Album, resp.Body.Close() *)
              ([EDo req; EClose],
               (getAlbumResponse.(GetAlbum), http.close_err (http.Body resp)))
          end
      end
  end.

End Get.

(** A request with a body of bytes, and what [Create] does to the outside
    world. *)
Record PostRequest := {
  PMethod : string;
  PURL : url.URL;
  PBody : string
}.

Inductive post_effect : Type :=
| PDo (req : PostRequest)
| PClose.

Section Create.

(** What [json.NewEncoder(w).Encode(&createAlbumRequest)] writes, in one
    [Write]: the JSON text of the request and a newline. *)
Variable json_Encode : CreateAlbumRequest -> string.

(** [func Create(ctx, client, createAlbumRequest) (Album, error)]
<<
      buf := bytes.NewBuffer(nil)
      w := bufio.NewWriter(buf)
      json.NewEncoder(w).Encode(&createAlbumRequest)
      req, err := http.NewRequest(http.MethodPost, rawURL.String(), buf)
>>
    The request reads [buf]; the writer [w] is never flushed. *)
Definition Create
    (client : PostRequest -> result (http.Response CreateAlbumResponse))
    (createAlbumRequest : CreateAlbumRequest)
  : Datatypes.list post_effect * (Album * option error) :=
  match url.JoinPath api.PhotosLibraryVersion [CreateAlbumPath] with
  | Err err => ([], (zero_Album, Some err))
  | Ok urlPath =>
      let rawURL := {| url.Scheme := api.PhotosLibraryScheme;
                       url.Host := api.PhotosLibraryHost;
                       url.Path := urlPath;
                       url.RawQuery := "" |} in
      let w := bufio.NewWriter "" in
      let w := bufio.Write w (json_Encode createAlbumRequest) in
      let req := {| PMethod := "POST"; PURL := rawURL;
                    PBody := bufio.under w |} in
      match client req with
      | Err err => ([PDo req], (zero_Album, Some err))
      | Ok resp =>
          match http.decoded (http.Body resp) with
          | Err err => ([PDo req], (zero_Album, Some err))
          | Ok createAlbumResponse =>
              ([PDo req; PClose],
               (createAlbumResponse.(CreatedAlbum),
                http.close_err (http.Body resp)))
          end
      end
  end.

End Create.

End albums.

(* ================================================================== *)
(** * [mediaitems/mediaitems.go] *)

Module mediaitems.

Definition ListMediaItemsPath := "mediaItems".
Definition SearchMediaItemsPath := "mediaItems:search".

(** [float64] and [time.Time] values are carried, never computed with:
    the first are kept as their IEEE-754 bits, the second as their RFC
    3339 text. *)
Definition float64 := Z.
Definition Time := string.

Definition VideoProcessingStatus := string.

Record Photo := {
  CameraMake : string;
  CameraModel : string;
  FocalLength : float64;
  AperatureFNumber : float64;
  ISOEquivalent : Z;
  ExposureTime : string
}.

Record Video := {
  VCameraMake : string;
  VCameraModel : string;
  FPS : float64;
  Status : VideoProcessingStatus
}.

Record MediaMetadata := {
  CreationTime : Time;
  Width : Z;
  Height : Z;
  Photo_ : option Photo;
  Video_ : option Video
}.

Record ContributorInfo := {
  ProfilePictureBaseUrl : string;
  DisplayName : string
}.

Record MediaItem := {
  ID : string;
  Description : string;
  ProductURL : string;
  BaseURL : string;
  MimeType : string;
  MediaMetadata_ : option MediaMetadata;
  ContributorInfo_ : option ContributorInfo;
  Filename : string
}.

Record ListMediaItemsRequest := {
  PageSize : Z;
  PageToken : string;
  ExcludeNonAppCreatedData : bool
}.

Record ListMediaItemsResponse := {
  MediaItems : list MediaItem;
  NextPageToken : string
}.

(** The query parameters [list] collects in [urlValues]. *)
Definition list_values (listAlbumsRequest : ListMediaItemsRequest) : url.Values :=
  let urlValues := url.make in
  let urlValues :=
    if (listAlbumsRequest.(PageSize) >? 0)%Z
    then url.Add urlValues api.PageSizeQueryKey
           (strconv.Itoa listAlbumsRequest.(PageSize))
    else urlValues in
  let urlValues :=
    if negb (String.eqb listAlbumsRequest.(PageToken) "")
    then url.Add urlValues api.PageTokenQueryKey listAlbumsRequest.(PageToken)
    else urlValues in
  url.Add urlValues api.ExcludeNonAppCreatedDataQueryKey
    (strconv.FormatBool listAlbumsRequest.(ExcludeNonAppCreatedData)).

(** [func list(ctx, client, listAlbumsRequest) (ListMediaItemsResponse, error)] *)
Definition list (client : http.Client ListMediaItemsResponse)
    (listAlbumsRequest : ListMediaItemsRequest) : io ListMediaItemsResponse :=
  urlPath <- lift (url.JoinPath api.PhotosLibraryVersion [ListMediaItemsPath]) ;;
  let urlValues := list_values listAlbumsRequest in
  let rawURL := {| url.Scheme := api.PhotosLibraryScheme;
                   url.Host := api.PhotosLibraryHost;
                   url.Path := urlPath;
                   url.RawQuery := url.Encode urlValues |} in
  req <- NewRequestWithContext http.MethodGet rawURL None ;;
  resp <- Do client req ;;
  listResponse <- Decode (http.Body resp) ;;
  _ <- Close (http.Body resp) ;;
  ret listResponse.

Definition set_PageToken (req : ListMediaItemsRequest) (tok : string) :=
  {| PageSize := req.(PageSize);
     PageToken := tok;
     ExcludeNonAppCreatedData := req.(ExcludeNonAppCreatedData) |}.

(** The reading of the query of a list request back into a
    [ListMediaItemsRequest], as for the albums. *)
Definition parse_query (rawQuery : string) : result ListMediaItemsRequest :=
  let q := url.ParseQuery rawQuery in
  match (if url.Has q api.PageSizeQueryKey
         then strconv.Atoi (url.Get q api.PageSizeQueryKey) else Ok 0%Z),
        (if url.Has q api.ExcludeNonAppCreatedDataQueryKey
         then strconv.ParseBool (url.Get q api.ExcludeNonAppCreatedDataQueryKey)
         else Ok false)
  with
  | Ok size, Ok exclude =>
      Ok {| PageSize := size;
            PageToken := url.Get q api.PageTokenQueryKey;
            ExcludeNonAppCreatedData := exclude |}
  | Err e, _ => Err e
  | _, Err e => Err e
  end.

(** The request [list] hands to [client.Do]. *)
Definition request (listRequest : ListMediaItemsRequest) : http.Request :=
  {| http.Method := http.MethodGet;
     http.URL := {| url.Scheme := api.PhotosLibraryScheme;
                    url.Host := api.PhotosLibraryHost;
                    url.Path := "v1/mediaItems";
                    url.RawQuery := url.Encode (list_values listRequest) |};
     http.ReqBody := None |}.

Definition List_op : pagination.operation :=
  {| pagination.fetch := list;
     pagination.items := MediaItems;
     pagination.next_token := NextPageToken;
     pagination.set_token := set_PageToken;
     pagination.request := request |}.

(** [func List(ctx, client, listRequest) (<-chan MediaItem, <-chan error)] *)
Definition List (listRequest : ListMediaItemsRequest)
    (os : Datatypes.list (pagination.Oracle List_op)) :=
  pagination.go List_op listRequest os.

(** [type Filters struct{}] *)
Record Filters := { }.

Record SearchMediaItemRequest := {
  SAlbumID : string;
  SPageSize : Z;
  SPageToken : string;
  SFilters : Filters;
  SOrderBy : string
}.

Record SearchMediaItemResponse := {
  SMediaItems : Datatypes.list MediaItem;
  SNextPageToken : string
}.

(** The declared fields of [SearchMediaItemRequest] with their tags, as
    written in the source: the tag of [PageToken] lacks its closing
    quote. *)
Definition SearchMediaItemRequest_fields : Datatypes.list (string * string) :=
  [ ("AlbumID",   tag "json" "albumId,omitempty");
    ("PageSize",  tag "json" "pageSize,omitempty");
    ("PageToken", tag_unclosed "json" "pageToken,omitempty");
    ("Filters",   tag "json" "filters,omitempty");
    ("OrderBy",   tag "json" "orderBy,omitempty") ].

(** The reflective view of a [SearchMediaItemRequest]. *)
Definition SearchMediaItemRequest_value (r : SearchMediaItemRequest)
  : json.govalue :=
  json.GoStruct
    (combine SearchMediaItemRequest_fields
       [ json.GoString r.(SAlbumID);
         json.GoInt r.(SPageSize);
         json.GoString r.(SPageToken);
         json.GoStruct [];
         json.GoString r.(SOrderBy) ]).

(** The assignment of a decoded value to a field of a
    [SearchMediaItemRequest]. *)
Definition SearchMediaItemRequest_set (r : SearchMediaItemRequest)
    (goName : string) (v : json.value) : result SearchMediaItemRequest :=
  let with_ a s t f o :=
    {| SAlbumID := a; SPageSize := s; SPageToken := t; SFilters := f;
       SOrderBy := o |} in
  if String.eqb goName "AlbumID" then
    match v with
    | json.Str s => Ok (with_ s r.(SPageSize) r.(SPageToken) r.(SFilters) r.(SOrderBy))
    | _ => json.type_error
    end
  else if String.eqb goName "PageSize" then
    match v with
    | json.Number z => Ok (with_ r.(SAlbumID) z r.(SPageToken) r.(SFilters) r.(SOrderBy))
    | _ => json.type_error
    end
  else if String.eqb goName "PageToken" then
    match v with
    | json.Str s => Ok (with_ r.(SAlbumID) r.(SPageSize) s r.(SFilters) r.(SOrderBy))
    | _ => json.type_error
    end
  else if String.eqb goName "Filters" then
    match v with
    | json.Object _ => Ok r
    | _ => json.type_error
    end
  else if String.eqb goName "OrderBy" then
    match v with
    | json.Str s => Ok (with_ r.(SAlbumID) r.(SPageSize) r.(SPageToken) r.(SFilters) s)
    | _ => json.type_error
    end
  else Ok r.

(** [var rtSearchReq SearchMediaItemRequest;
     json.NewDecoder(req.Body).Decode(&rtSearchReq)],
    as the round tripper of the test does. *)
Definition decode_SearchMediaItemRequest (body : json.value)
  : result SearchMediaItemRequest :=
  json.Decode SearchMediaItemRequest_fields SearchMediaItemRequest_set
    {| SAlbumID := ""; SPageSize := 0; SPageToken := ""; SFilters := Build_Filters;
       SOrderBy := "" |}
    body.

(** [func search(ctx, client, searchRequest) (SearchMediaItemResponse, error)] *)
Definition search (client : http.Client SearchMediaItemResponse)
    (searchRequest : SearchMediaItemRequest) : io SearchMediaItemResponse :=
  urlPath <- lift (url.JoinPath api.PhotosLibraryVersion [SearchMediaItemsPath]) ;;
  let rawURL := {| url.Scheme := api.PhotosLibraryScheme;
                   url.Host := api.PhotosLibraryHost;
                   url.Path := urlPath;
                   url.RawQuery := "" |} in
  let b := json.marshal (SearchMediaItemRequest_value searchRequest) in
  req <- NewRequestWithContext http.MethodGet rawURL (Some b) ;;
  resp <- Do client req ;;
  searchResponse <- Decode (http.Body resp) ;;
  _ <- Close (http.Body resp) ;;
  ret searchResponse.

Definition set_SPageToken (req : SearchMediaItemRequest) (tok : string) :=
  {| SAlbumID := req.(SAlbumID);
     SPageSize := req.(SPageSize);
     SPageToken := tok;
     SFilters := req.(SFilters);
     SOrderBy := req.(SOrderBy) |}.

(** The request [search] hands to [client.Do]. *)
Definition search_request (searchRequest : SearchMediaItemRequest)
  : http.Request :=
  {| http.Method := http.MethodGet;
     http.URL := {| url.Scheme := api.PhotosLibraryScheme;
                    url.Host := api.PhotosLibraryHost;
                    url.Path := "v1/mediaItems:search";
                    url.RawQuery := "" |};
     http.ReqBody :=
       Some (json.marshal (SearchMediaItemRequest_value searchRequest)) |}.

Definition Search_op : pagination.operation :=
  {| pagination.fetch := search;
     pagination.items := SMediaItems;
     pagination.next_token := SNextPageToken;
     pagination.set_token := set_SPageToken;
     pagination.request := search_request |}.

(** [func Search(ctx, client, searchRequest) (<-chan MediaItem, <-chan error)] *)
Definition Search (searchRequest : SearchMediaItemRequest)
    (os : Datatypes.list (pagination.Oracle Search_op)) :=
  pagination.go Search_op searchRequest os.

(** ** [Get] *)

Record GetMediaItemRequest := { MediaItemID : string }.

Record GetMediaItemResponse := { GetMediaItem : MediaItem }.

Definition zero_MediaItem : MediaItem :=
  {| ID := ""; Description := ""; ProductURL := ""; BaseURL := "";
     MimeType := ""; MediaMetadata_ := None; ContributorInfo_ := None;
     Filename := "" |}.

Section Get.

Variable url_JoinPath : string -> Datatypes.list string -> result string.

(** [func Get(ctx, client, getRequest) (MediaItem, error)] *)
Definition Get (client : http.Client GetMediaItemResponse)
    (getRequest : GetMediaItemRequest)
  : Datatypes.list effect * (MediaItem * option error) :=
  match url_JoinPath api.PhotosLibraryVersion
          [ListMediaItemsPath; getRequest.(MediaItemID)] with
  | Err err => ([], (zero_MediaItem, Some err))
  | Ok urlPath =>
      let rawURL := {| url.Scheme := api.PhotosLibraryScheme;
                       url.Host := api.PhotosLibraryHost;
                       url.Path := urlPath;
                       url.RawQuery := "" |} in
      let req := {| http.Method := http.MethodGet; http.URL := rawURL;
                    http.ReqBody := None |} in
      match client req with
      | Err err => ([EDo req], (zero_MediaItem, Some err))
      | Ok resp =>
          match http.decoded (http.Body resp) with
          | Err err => ([EDo req], (zero_MediaItem, Some err))
          | Ok getResponse =>
              ([EDo req; EClose],
               (getResponse.(GetMediaItem), http.close_err (http.Body resp)))
          end
      end
  end.

End Get.

(** ** The round tripper of [TestSearch] *)

(** [searchResponses[token]] *)
Fixpoint lookup (searchResponses : Datatypes.list (string * SearchMediaItemResponse))
    (token : string) : option SearchMediaItemResponse :=
  match searchResponses with
  | [] => None
  | (k, v) :: rest => if String.eqb k token then Some v else lookup rest token
  end.

(** [roundTripperFn] on a request whose body holds the JSON value [body]:
    it decodes the body into a [SearchMediaItemRequest], looks the page
    token up in the map and answers 200 with the page found, marshalled;
    the body of the answer closes without error ([io.NopCloser]). *)
Definition roundTripperFn
    (searchResponses : Datatypes.list (string * SearchMediaItemResponse))
    (body : json.value) : result (http.Response SearchMediaItemResponse) :=
  match decode_SearchMediaItemRequest body with
  | Err err => Err err
  | Ok rtSearchReq =>
      match lookup searchResponses rtSearchReq.(SPageToken) with
      | None =>
          Err ("searchResponse not found for " ++ rtSearchReq.(SPageToken))%string
      | Some searchResp =>
          Ok {| http.StatusCode := http.StatusOK;
                http.Body := {| http.decoded := Ok searchResp;
                                http.close_err := None |} |}
      end
  end.

(** The client of the test: [client.Do] hands the request to the round
    tripper and wraps its error in a [*url.Error].  A request without
    body, which the round tripper cannot read, is refused here; [search]
    always sends one. *)
Definition test_client
    (searchResponses : Datatypes.list (string * SearchMediaItemResponse))
  : http.Client SearchMediaItemResponse :=
  fun req =>
    match http.ReqBody req with
    | None => Err "http: nil Request.Body"
    | Some body =>
        match roundTripperFn searchResponses body with
        | Ok resp => Ok resp
        | Err err =>
            Err ("Get " ++ String dquote (url.String_ (http.URL req))
                 ++ String dquote (": " ++ err))%string
        end
    end.

End mediaitems.

(** The paginated operations of the library. *)
Definition operations : list pagination.operation :=
  [albums.List_op; mediaitems.List_op; mediaitems.Search_op].

(* ================================================================== *)
(** * [oauth2/oauth2.go] *)

Module base64.

(** The alphabet of [base64.URLEncoding]. *)
Definition encodeURL : string :=
  "ABCDEFGHIJKLMNOPQRSTUVWXYZabcdefghijklmnopqrstuvwxyz0123456789-_".

Definition enc (n : N) : ascii :=
  match String.get (N.to_nat (n mod 64)) encodeURL with
  | Some c => c
  | None => "="%char
  end.

(** [base64.URLEncoding.EncodeToString], with padding. *)
Fixpoint EncodeToString (src : list Byte.byte) : string :=
  match src with
  | [] => EmptyString
  | [b0] =>
      let v := (Byte.to_N b0 * 16)%N in
      String (enc (v / 64)) (String (enc v) "==")
  | [b0; b1] =>
      let v := ((Byte.to_N b0 * 256 + Byte.to_N b1) * 4)%N in
      String (enc (v / 4096)) (String (enc (v / 64)) (String (enc v) "="))
  | b0 :: b1 :: b2 :: src' =>
      let v := (Byte.to_N b0 * 65536 + Byte.to_N b1 * 256
                + Byte.to_N b2)%N in
      String (enc (v / 262144))
        (String (enc (v / 4096))
           (String (enc (v / 64)) (String (enc v) (EncodeToString src'))))
  end.

End base64.

Module oauth2.

Definition stateURLQueryKey := "state".
Definition stateSize : nat := 10.

(** What the handler wrote to its [http.ResponseWriter]. *)
Record reply := {
  status : Z;
  written : string
}.

(** The handler installed by [listenAndServerRedirect], on a request with
    the raw query [rawQuery]: its reply, and the code it put on [codeCh],
    if any.
<<
    query := r.URL.Query()
    state := query.Get(stateURLQueryKey)
    if state != string(state) { 401, "invalid state"; return }
    codeCh <- query.Get("code")
    200, "Authenticated Successfully"
>>
    The function has no other [state] in scope than the one it has just
    read from the query. *)
Definition handler (rawQuery : string) : reply * option string :=
  let query := url.ParseQuery rawQuery in
  let state := url.Get query stateURLQueryKey in
  if negb (String.eqb state state) then
    ({| status := http.StatusUnauthorized; written := "invalid state" |}, None)
  else
    ({| status := http.StatusOK; written := "Authenticated Successfully" |},
     Some (url.Get query "code")).

(** [code := <-codeCh]: the listener serves the callbacks that reach it,
    in order, until one of them puts a code on the channel; [None] when
    none does (the caller stays blocked). *)
Fixpoint await_code (callbacks : list string) : list reply * option string :=
  match callbacks with
  | [] => ([], None)
  | rawQuery :: callbacks' =>
      match handler rawQuery with
      | (r, Some code) => ([r], Some code)
      | (r, None) =>
          let '(rs, code) := await_code callbacks' in (r :: rs, code)
      end
  end.

(** The outside world of one call of [NewClient]. *)
Record world := {
  rand_Read : result (list Byte.byte);    (** [rand.Read(b)], [stateSize] bytes *)
  url_Parse : option error;               (** [url.Parse(config.RedirectURL)] *)
  callbacks : list string;                (** raw queries reaching the listener *)
  Shutdown : option error;                (** [server.Shutdown(ctx)] *)
  Exchange : string -> result string      (** [config.Exchange(ctx, code, ...)] *)
}.

(** What a call of [NewClient] did and returned. *)
Record login := {
  state_nonce : string;               (** the [state] put in the auth URL *)
  replies : list reply;               (** the replies of the listener *)
  exchanged : list string;            (** the codes given to [Exchange] *)
  returned : option (result string)   (** [None]: blocked on [codeCh];
                                          else the token of the client, or
                                          the error *)
}.

(** [func NewClient(ctx, config, opts...)], which returns the authenticated
    client (here the token it carries) or an error. *)
Definition NewClient (w : world) : login :=
  match rand_Read w with
  | Err e => {| state_nonce := ""; replies := []; exchanged := [];
                returned := Some (Err e) |}
  | Ok b =>
      let state := base64.EncodeToString b in
      match url_Parse w with
      | Some e => {| state_nonce := state; replies := []; exchanged := [];
                     returned := Some (Err e) |}
      | None =>
          let '(rs, got) := await_code (callbacks w) in
          match got with
          | None => {| state_nonce := state; replies := rs; exchanged := [];
                       returned := None |}
          | Some code =>
              match Shutdown w with
              | Some e => {| state_nonce := state; replies := rs;
                             exchanged := []; returned := Some (Err e) |}
              | None =>
                  {| state_nonce := state; replies := rs;
                     exchanged := [code];
                     returned := Some (Exchange w code) |}
              end
          end
      end
  end.

End oauth2.

(* ================================================================== *)
(** * Further readings of a run *)

Module runs.

Section Readings.

Variable P : pagination.operation.

(** The request the goroutine holds after the fetches answered by [A], all
    of which yielded a page; [None] when one of them failed. *)
Fixpoint walk (r : pagination.Req P)
    (A : list (result (http.Response (pagination.Resp P))))
  : option (pagination.Req P) :=
  match A with
  | [] => Some r
  | a :: A' =>
      match snd (pagination.fetch P (fun _ => a) r) with
      | Ok resp =>
          walk (pagination.set_token P r (pagination.next_token P resp)) A'
      | Err _ => None
      end
  end.

(** The pages the fetches answered by [A] yielded, up to the first
    failure. *)
Fixpoint fetched (r : pagination.Req P)
    (A : list (result (http.Response (pagination.Resp P))))
  : list (pagination.Resp P) :=
  match A with
  | [] => []
  | a :: A' =>
      match snd (pagination.fetch P (fun _ => a) r) with
      | Ok resp =>
          resp :: fetched (pagination.set_token P r (pagination.next_token P resp)) A'
      | Err _ => []
      end
  end.

(** The consumer never receives from the error channel. *)
Fixpoint no_recv_err (os : list (pagination.Oracle P)) : bool :=
  match os with
  | [] => true
  | pagination.RecvErr _ :: _ => false
  | _ :: os' => no_recv_err os'
  end.

(** Nothing comes from outside but cancellations: the consumer receives
    nothing and the transport answers nothing. *)
Fixpoint left_alone (os : list (pagination.Oracle P)) : bool :=
  match os with
  | [] => true
  | pagination.RecvErr _ :: _ | pagination.RecvItem _ :: _
  | pagination.Answer _ :: _ => false
  | _ :: os' => left_alone os'
  end.

(** The schedule that cancels the context and lets the goroutine run to
    its end from the place [p]. *)
Definition shutdown (p : pagination.pc (pagination.Resp P) (pagination.Item P))
  : list (pagination.Oracle P) :=
  match p with
  | pagination.AtPoll _ _ =>
      [pagination.Cancel _; pagination.Tick _; pagination.Tick _]
  | pagination.AtRange resp [] =>
      if String.eqb (pagination.next_token P resp) ""
      then [pagination.Cancel _; pagination.Tick _; pagination.Tick _]
      else [pagination.Cancel _; pagination.Tick _; pagination.Tick _;
            pagination.Tick _]
  | pagination.AtRange _ (_ :: _) =>
      [pagination.Cancel _; pagination.PickDone _; pagination.Tick _]
  | pagination.AtReturn _ _ _ => [pagination.Cancel _; pagination.Tick _]
  | _ => [pagination.Cancel _]
  end.

(** The answers the transport [c] gives to the goroutine started on [r],
    for at most [n] fetches. *)
Fixpoint served (c : http.Client (pagination.Resp P)) (r : pagination.Req P)
    (n : nat) : list (result (http.Response (pagination.Resp P))) :=
  match n with
  | O => []
  | S n' =>
      let a := c (pagination.request P r) in
      a :: match snd (pagination.fetch P (fun _ => a) r) with
           | Ok resp =>
               if String.eqb (pagination.next_token P resp) "" then []
               else served c (pagination.set_token P r
                                (pagination.next_token P resp)) n'
           | Err _ => []
           end
  end.

(** How a collection of all the pages ended: the pages ran out, a fetch
    failed, or more than the allowed number of fetches was needed. *)
Inductive ending : Type :=
| Complete
| Broken (err : error)
| Unfinished.

(** The plain loop a caller means by "list everything": fetch, keep the
    items, go on with the token until it is empty; at most [n] fetches. *)
Fixpoint collect (c : http.Client (pagination.Resp P)) (r : pagination.Req P)
    (n : nat) : list (pagination.Item P) * ending :=
  match n with
  | O => ([], Unfinished)
  | S n' =>
      match snd (pagination.fetch P c r) with
      | Err e => ([], Broken e)
      | Ok resp =>
          if String.eqb (pagination.next_token P resp) ""
          then (pagination.items P resp, Complete)
          else
            let '(more, e) :=
              collect c (pagination.set_token P r
                           (pagination.next_token P resp)) n' in
            (pagination.items P resp ++ more, e)
      end
  end.

(** What the consumer has been sent is, in order, what the pages fetched
    so far hold, up to the items of the current page still to send
    ([rest]) or given up ([dropped]). *)
Definition in_order (r0 : pagination.Req P) (os : list (pagination.Oracle P))
    (s : pagination.State P) : Prop :=
  let pages := fetched r0 (pagination.answers os) in
  let all := List.concat (map (pagination.items P) pages) in
  match pagination.at_ s with
  | pagination.AtPoll _ _ | pagination.AtFetch _ _ =>
      walk r0 (pagination.answers os) = Some (pagination.req s)
      /\ pagination.sent (pagination.trace s) = all
  | pagination.AtRange resp rest =>
      exists A a,
        pagination.answers os = A ++ [a]
        /\ walk r0 A = Some (pagination.req s)
        /\ snd (pagination.fetch P (fun _ => a) (pagination.req s)) = Ok resp
        /\ pagination.sent (pagination.trace s) ++ rest = all
  | _ => exists dropped, pagination.sent (pagination.trace s) ++ dropped = all
  end.

End Readings.

End runs.

(* ================================================================== *)
(** * Sample values *)

Module example.

Definition album (id : string) : albums.Album :=
  {| albums.ID := id; albums.Title := ""; albums.ProductURL := "";
     albums.IsWriteable := false; albums.ShareInfo_ := None;
     albums.MediaItemsCount := ""; albums.CoverPhotoBaseURL := "";
     albums.CoverPhotoMediaItemID := "" |}.

(** The zero [ListAlbumsRequest]. *)
Definition first_request : albums.ListAlbumsRequest :=
  {| albums.PageSize := 0; albums.PageToken := "";
     albums.ExcludeNonAppCreatedData := false |}.

(** Page 1 holds [A, B] and the token ["x"], page 2 holds [C] and no
    token. *)
Definition page1 : albums.ListAlbumsResponse :=
  {| albums.Albums := [album "A"; album "B"]; albums.NextPageToken := "x" |}.

Definition page2 : albums.ListAlbumsResponse :=
  {| albums.Albums := [album "C"]; albums.NextPageToken := "" |}.

(** A transport failure. *)
Definition unreachable : result (http.Response albums.ListAlbumsResponse) :=
  Err "dial tcp: connection refused".

(** A response whose body is not JSON. *)
Definition garbled (R : Type) : http.Response R :=
  {| http.StatusCode := 502;
     http.Body := {| http.decoded := Err "invalid character '<' looking for beginning of value";
                     http.close_err := None |} |}.

(** A login during which the listener is reached by a request that
    carries a code and a state the library never issued. *)
Definition forged_login : oauth2.world :=
  {| oauth2.rand_Read := Ok (repeat Byte.x00 oauth2.stateSize);
     oauth2.url_Parse := None;
     oauth2.callbacks := ["code=stolen&state=forged"];
     oauth2.Shutdown := None;
     oauth2.Exchange := fun code => Ok ("token for " ++ code)%string |}.


(** The media item of the tests, with its identifier. *)
Definition media_item (id : string) : mediaitems.MediaItem :=
  {| mediaitems.ID := id; mediaitems.Description := "";
     mediaitems.ProductURL := ""; mediaitems.BaseURL := "";
     mediaitems.MimeType := "";
     mediaitems.MediaMetadata_ :=
       Some {| mediaitems.CreationTime := "0001-01-01T00:00:00Z";
               mediaitems.Width := 0; mediaitems.Height := 0;
               mediaitems.Photo_ := None; mediaitems.Video_ := None |};
     mediaitems.ContributorInfo_ :=
       Some {| mediaitems.ProfilePictureBaseUrl := "";
               mediaitems.DisplayName := "" |};
     mediaitems.Filename := "" |}.

(** [searchResponses] of [TestSearch]. *)
Definition searchResponses
  : list (string * mediaitems.SearchMediaItemResponse) :=
  [ ("", {| mediaitems.SMediaItems := [media_item "test-a"];
            mediaitems.SNextPageToken := "a" |});
    ("a", {| mediaitems.SMediaItems := [media_item "test-b"];
             mediaitems.SNextPageToken := "" |}) ].

(** [searchReq] of [TestSearch]. *)
Definition searchReq : mediaitems.SearchMediaItemRequest :=
  {| mediaitems.SAlbumID := ""; mediaitems.SPageSize := 0;
     mediaitems.SPageToken := "";
     mediaitems.SFilters := mediaitems.Build_Filters;
     mediaitems.SOrderBy := "" |}.

(** A search request with every field set. *)
Definition search_request : mediaitems.SearchMediaItemRequest :=
  {| mediaitems.SAlbumID := "album-1"; mediaitems.SPageSize := 25;
     mediaitems.SPageToken := "next page";
     mediaitems.SFilters := mediaitems.Build_Filters;
     mediaitems.SOrderBy := "MediaMetadata.creation_time desc" |}.

End example.

(* ================================================================== *)
(** * Facts about the pagination goroutine *)

Import pagination.
Unset Implicit Arguments.
Arguments pagination.step : simpl never.

Section DriverFacts.

(** Any of the paginated operations. *)
Variable Op : operation.

Notation Req := (pagination.Req Op).
Notation Resp := (pagination.Resp Op).
Notation Item := (pagination.Item Op).
Notation fetch := (pagination.fetch Op).
Notation items := (pagination.items Op).
Notation next_token := (pagination.next_token Op).
Notation set_token := (pagination.set_token Op).
Notation request := (pagination.request Op).
Notation state := (pagination.state Req Resp Item).
Notation step := (pagination.step fetch items next_token set_token).
Notation run := (pagination.run fetch items next_token set_token).
Notation to_come := (pagination.to_come fetch items next_token set_token).
Notation to_come_at := (pagination.to_come_at fetch items next_token set_token).
Notation eager := (pagination.eager fetch items next_token set_token).
Notation complete := (pagination.complete fetch next_token set_token).
Notation well_paged := (pagination.well_paged next_token).
Notation req_after := (pagination.req_after next_token set_token).
Notation in_loop := (pagination.in_loop next_token).
Notation rest_of := (@pagination.rest_of Req Resp Item).
Notation winding := (@pagination.winding Req Resp Item).
Notation page_with_token := (pagination.page_with_token fetch next_token).

(** Splits a successful step into the cases of the program. *)
Ltac step_inv H :=
  match type of H with
  | pagination.step _ _ _ _ ?o ?s = Some _ =>
      unfold pagination.step in H;
      destruct o; destruct (at_ s) eqn:?; try discriminate H;
      cbv beta iota in H;
      repeat match type of H with
        | context [match ?l with [] => _ | _ :: _ => _ end] =>
            destruct l eqn:?; try discriminate H
        | context [if ?b then _ else _] =>
            destruct b eqn:?; try discriminate H
        | context [let '(_, _) := ?p in _] =>
            destruct p eqn:?; try discriminate H
        | context [match ?r with Ok _ => _ | Err _ => _ end] =>
            destruct r eqn:?; try discriminate H
        | context [match ?r with Some _ => _ | None => _ end] =>
            destruct r eqn:?; try discriminate H
        end;
      injection H as H; subst
  end.

Lemma run_app (os1 os2 : list (oracle Resp)) (s : state) :
  run (os1 ++ os2) s =
  match run os1 s with Some s1 => run os2 s1 | None => None end.
Proof.
  revert s; induction os1 as [|o os1 IH]; intros s; simpl; [reflexivity|].
  destruct (step o s); [apply IH | reflexivity].
Qed.

Lemma run_snoc (os : list (oracle Resp)) (o : oracle Resp) (s s' : state) :
  run (os ++ [o]) s = Some s' ->
  exists s1, run os s = Some s1 /\ step o s1 = Some s'.
Proof.
  rewrite run_app. destruct (run os s) as [s1|]; [|discriminate].
  simpl. destruct (step o s1) eqn:E; [|discriminate].
  intros [= <-]. eauto.
Qed.

Lemma send_open {A} (ch ch' : chan A) (v : A) :
  send ch v = Some ch' ->
  closed ch = false /\ closed ch' = false /\ received ch' = received ch ++ [v].
Proof.
  unfold send. destruct (closed ch); [discriminate|].
  intros [= <-]. auto.
Qed.

Lemma close_open {A} (ch ch' : chan A) :
  close ch = Some ch' ->
  closed ch = false /\ closed ch' = true /\ received ch' = received ch.
Proof.
  unfold close. destruct (closed ch); [discriminate|].
  intros [= <-]. auto.
Qed.

(** ** Readings of traces distribute over concatenation *)

Lemma sent_app (l l' : list (event Item)) : sent (l ++ l') = sent l ++ sent l'.
Proof.
  induction l as [|[]]; simpl; auto. now rewrite IHl.
Qed.

Lemma errors_app (l l' : list (event Item)) :
  errors (l ++ l') = errors l ++ errors l'.
Proof.
  induction l as [|[]]; simpl; auto. now rewrite IHl.
Qed.

Lemma fetches_app (l l' : list (event Item)) :
  fetches (l ++ l') = fetches l ++ fetches l'.
Proof.
  induction l as [|[[]| | |]]; simpl; auto. now rewrite IHl.
Qed.

Lemma closes_app (l l' : list (event Item)) :
  closes (l ++ l') = closes l + closes l'.
Proof.
  induction l as [|[]]; simpl; auto.
Qed.

Lemma sent_io (effs : list effect) : sent (map (@EvIO Item) effs) = [].
Proof. induction effs; simpl; auto. Qed.

Lemma errors_io (effs : list effect) : errors (map (@EvIO Item) effs) = [].
Proof. induction effs; simpl; auto. Qed.

Lemma closes_io (effs : list effect) : closes (map (@EvIO Item) effs) = 0.
Proof. induction effs; simpl; auto. Qed.

Lemma sent_sends (l : list Item) : sent (map (@EvSend Item) l) = l.
Proof. induction l; simpl; congruence. Qed.

Lemma errors_sends (l : list Item) : errors (map (@EvSend Item) l) = [].
Proof. induction l; simpl; auto. Qed.

Lemma fetches_sends (l : list Item) : fetches (map (@EvSend Item) l) = [].
Proof. induction l; simpl; auto. Qed.

Lemma closes_sends (l : list Item) : closes (map (@EvSend Item) l) = 0.
Proof. induction l; simpl; auto. Qed.

(** ** Invariants of every run *)

(** Without [Cancel] the context stays as it is. *)
Lemma step_ctx (o : oracle Resp) (s s' : state) :
  step o s = Some s' -> no_cancel [o] = true -> ctx_done s' = ctx_done s.
Proof.
  intros H NC. step_inv H; simpl in *; congruence.
Qed.

(** Once cancelled, always cancelled. *)
Lemma step_ctx_mono (o : oracle Resp) (s s' : state) :
  step o s = Some s' -> ctx_done s = true -> ctx_done s' = true.
Proof.
  intros H D. step_inv H; simpl in *; congruence.
Qed.

Lemma start_consistent (r : Req) : consistent (start Resp Item r).
Proof. repeat split. Qed.

Lemma step_consistent (o : oracle Resp) (s s' : state) :
  step o s = Some s' -> consistent s -> consistent s'.
Proof.
  intros H (C1 & C2 & C3 & C4 & C5).
  unfold consistent, exited in *.
  step_inv H; simpl in *;
    repeat match goal with
      | E : at_ _ = _ |- _ => rewrite E in *
      | E : send _ _ = Some _ |- _ => apply send_open in E; destruct E as (? & ? & ?)
      | E : close _ = Some _ |- _ => apply close_open in E; destruct E as (? & ? & ?)
      end;
    rewrite ?sent_app, ?errors_app, ?closes_app, ?sent_io, ?errors_io,
      ?closes_io, ?app_nil_r; simpl;
    repeat split; try congruence; try lia.
Qed.

Lemma run_consistent (os : list (oracle Resp)) (s s' : state) :
  run os s = Some s' -> consistent s -> consistent s'.
Proof.
  revert s; induction os as [|o os IH]; simpl; intros s H C.
  - now injection H as <-.
  - destruct (step o s) as [s1|] eqn:E; [|discriminate].
    eauto using step_consistent.
Qed.

Lemma start_outcome_ok (r : Req) : outcome_ok (start Resp Item r).
Proof. reflexivity. Qed.

Lemma step_outcome_ok (o : oracle Resp) (s s' : state) :
  step o s = Some s' -> consistent s -> outcome_ok s -> outcome_ok s'.
Proof.
  intros H (_ & _ & _ & _ & C5) O.
  unfold outcome_ok, exited in *.
  step_inv H; simpl in *;
    repeat match goal with
      | E : at_ _ = _ |- _ => rewrite E in *
      end;
    rewrite ?errors_app, ?errors_io, ?app_nil_r; simpl; auto;
    try match goal with o : outcome |- _ => destruct o end;
    rewrite ?errors_app, ?app_nil_r; simpl;
    repeat match goal with
      | O : exists _, _ |- _ => destruct O as (tr & e & Etr & ? & ?)
      | O : _ /\ _ |- _ => destruct O
      end;
    try (rewrite Etr, <- app_assoc; simpl);
    eauto 10.
Qed.

Lemma run_invariants (os : list (oracle Resp)) (s s' : state) :
  run os s = Some s' -> consistent s -> outcome_ok s ->
  consistent s' /\ outcome_ok s'.
Proof.
  revert s; induction os as [|o os IH]; simpl; intros s H C O.
  - injection H as <-. auto.
  - destruct (step o s) as [s1|] eqn:E; [|discriminate].
    eauto using step_consistent, step_outcome_ok.
Qed.

Lemma go_invariants (r : Req) (os : list (oracle Resp)) (s : state) :
  go Op r os = Some s -> consistent s /\ outcome_ok s.
Proof.
  intros H. eapply run_invariants; eauto using start_consistent, start_outcome_ok.
Qed.

(** ** The uncancelled goroutine does what the answers determine *)

Lemma no_cancel_cons (o : oracle Resp) (os : list (oracle Resp)) :
  no_cancel (o :: os) = true -> no_cancel [o] = true /\ no_cancel os = true.
Proof. destruct o; simpl; auto; discriminate. Qed.

Lemma no_cancel_app (os1 os2 : list (oracle Resp)) :
  no_cancel (os1 ++ os2) = no_cancel os1 && no_cancel os2.
Proof. induction os1 as [|[]]; simpl; auto. Qed.

Lemma answers_app (os1 os2 : list (oracle Resp)) :
  answers (os1 ++ os2) = answers os1 ++ answers os2.
Proof. induction os1 as [|[]]; simpl; auto. now rewrite IHos1. Qed.

Lemma run_ctx (os : list (oracle Resp)) (s s' : state) :
  run os s = Some s' -> no_cancel os = true -> ctx_done s' = ctx_done s.
Proof.
  revert s; induction os as [|o os IH]; simpl; intros s H NC.
  - now injection H as <-.
  - destruct (step o s) as [s1|] eqn:E; [|discriminate].
    apply no_cancel_cons in NC. destruct NC as [NC1 NC].
    rewrite (IH s1 H NC). eapply step_ctx; eauto.
Qed.

Lemma no_cancel_recv (n : nat) : no_cancel (repeat (RecvItem Resp) n) = true.
Proof. induction n; simpl; auto. Qed.

Lemma answers_recv (n : nat) : answers (repeat (RecvItem Resp) n) = [].
Proof. induction n; simpl; auto. Qed.

(** One uncancelled step moves an event from what is to come to the
    trace, and the answer it consumes from those to come. *)
Lemma step_to_come (o : oracle Resp) (s s' : state)
    (A : list (result (http.Response Resp))) :
  step o s = Some s' -> no_cancel [o] = true -> ctx_done s = false ->
  trace s ++ to_come_at (at_ s) (req s) (answers [o] ++ A)
  = trace s' ++ to_come_at (at_ s') (req s') A.
Proof.
  intros H NC D.
  step_inv H; simpl in *; try discriminate;
    repeat match goal with
      | E : fetch _ _ = _ |- _ => rewrite E; clear E
      | E : String.eqb _ _ = _ |- _ => rewrite E; clear E
      end;
    rewrite <- ?app_assoc; simpl; try reflexivity; congruence.
Qed.

Theorem run_to_come (os : list (oracle Resp)) (s s' : state)
    (A : list (result (http.Response Resp))) :
  run os s = Some s' -> no_cancel os = true -> ctx_done s = false ->
  trace s ++ to_come_at (at_ s) (req s) (answers os ++ A)
  = trace s' ++ to_come_at (at_ s') (req s') A.
Proof.
  revert s; induction os as [|o os IH]; simpl; intros s H NC D.
  - now injection H as <-.
  - destruct (step o s) as [s1|] eqn:E; [|discriminate].
    apply no_cancel_cons in NC. destruct NC as [NC1 NC].
    rewrite <- (IH s1 H NC) by (rewrite (step_ctx _ _ _ E NC1); exact D).
    rewrite <- (step_to_come _ _ _ (answers os ++ A) E NC1 D).
    destruct o; reflexivity.
Qed.

(** A run that has exited consumed its answers to the last. *)
Corollary exited_trace (r : Req) (os : list (oracle Resp)) (s : state) :
  run os (start Resp Item r) = Some s -> no_cancel os = true ->
  exited s = true ->
  trace s = to_come r (answers os).
Proof.
  intros H NC X.
  pose proof (run_to_come _ _ _ [] H NC eq_refl) as E.
  rewrite app_nil_r in E. simpl in E. rewrite E.
  unfold exited in X. destruct (at_ s); try discriminate.
  simpl. now rewrite app_nil_r.
Qed.

(** ** The eager schedule runs the goroutine to its end *)

Lemma run_sends (resp : Resp) (rest : list Item) (s : state) :
  at_ s = AtRange resp rest -> closed (itemCh s) = false ->
  exists s',
    run (repeat (RecvItem Resp) (List.length rest)) s = Some s'
    /\ at_ s' = AtRange resp [] /\ req s' = req s
    /\ ctx_done s' = ctx_done s /\ closed (itemCh s') = false
    /\ errCh s' = errCh s.
Proof.
  revert s; induction rest as [|x rest IH]; intros s P C; simpl.
  - eauto 10.
  - unfold pagination.step at 1. rewrite P. unfold send. rewrite C.
    cbv beta iota.
    match goal with |- context [run _ ?s1] =>
      destruct (IH s1 eq_refl eq_refl) as (s' & R & ? & ? & ? & ? & ?) end.
    exists s'. simpl in *. auto 10.
Qed.

Lemma eager_no_cancel (A : list (result (http.Response Resp))) (r : Req) :
  no_cancel (eager r A) = true.
Proof.
  revert r; induction A as [|a A IH]; intros r; simpl; [reflexivity|].
  destruct (snd (fetch (fun _ => a) r)); [|reflexivity].
  rewrite no_cancel_app, no_cancel_recv. simpl.
  destruct (String.eqb (next_token v) ""); simpl; auto.
Qed.

Lemma eager_answers (A : list (result (http.Response Resp))) (r : Req) :
  complete r A -> answers (eager r A) = A.
Proof.
  revert r; induction A as [|a A IH]; intros r; simpl; [tauto|].
  destruct (snd (fetch (fun _ => a) r)).
  - rewrite answers_app, answers_recv.
    simpl. destruct (String.eqb (next_token v) "").
    + now intros ->.
    + intros C. now rewrite IH.
  - now intros ->.
Qed.

(** Under the eager schedule a whole run exits. *)
Lemma eager_exits (A : list (result (http.Response Resp))) (r : Req) (s : state) :
  complete r A ->
  at_ s = AtPoll Resp Item -> req s = r -> ctx_done s = false ->
  closed (itemCh s) = false -> closed (errCh s) = false ->
  exists s', run (eager r A) s = Some s' /\ exited s' = true.
Proof.
  revert r s; induction A as [|a A IH]; intros r s C Ppc Rq D CI CE;
    simpl in C; [tauto|].
  simpl. unfold pagination.step at 1. rewrite Ppc, D. cbv beta iota.
  unfold pagination.step at 1. simpl. rewrite Rq.
  destruct (fetch (fun _ => a) r) as [effs [resp|e]] eqn:F; simpl in *.
  - (* a page *)
    match goal with |- context [run (_ ++ _) ?s1] =>
      destruct (run_sends resp (items resp) s1 eq_refl CI)
        as (s2 & R2 & P2 & Rq2 & D2 & CI2 & CE2) end.
    rewrite run_app, R2. simpl in *.
    unfold pagination.step at 1. rewrite P2.
    destruct (String.eqb (next_token resp) "") eqn:T.
    + simpl. unfold pagination.step at 1. simpl.
      unfold close. simpl. rewrite CI2. simpl. eauto.
    + apply IH; simpl; auto; congruence.
  - (* an error *)
    unfold pagination.step at 1. simpl. unfold send. simpl. rewrite CE.
    unfold pagination.step at 1. simpl. unfold close. simpl. rewrite CI.
    simpl. eauto.
Qed.

(** ** Without an end of the pages, an error or a cancellation, no return *)

Lemma step_loops (o : oracle Resp) (s s' : state) :
  step o s = Some s' -> no_cancel [o] = true ->
  Forall page_with_token (answers [o]) ->
  ctx_done s = false ->
  in_loop s ->
  in_loop s'.
Proof.
  intros H NC G D J. unfold pagination.in_loop in *.
  step_inv H; simpl in *; try discriminate; try tauto;
    repeat match goal with
      | E : at_ _ = _ |- _ => rewrite E in *
      end; auto.
  - (* the token is empty: not on these answers *)
    match goal with E : String.eqb _ _ = true |- _ => apply String.eqb_eq in E end.
    congruence.
  - (* the fetch yields a page *)
    apply Forall_inv in G. destruct (G (req s)) as (resp & F & T).
    match goal with E : pagination.fetch _ _ _ = _ |- _ => rewrite E in F end.
    simpl in F. congruence.
  - (* the fetch fails: not on these answers *)
    apply Forall_inv in G. destruct (G (req s)) as (resp & F & _).
    match goal with E : pagination.fetch _ _ _ = _ |- _ => rewrite E in F end.
    discriminate.
Qed.

Lemma run_loops (os : list (oracle Resp)) (s s' : state) :
  run os s = Some s' -> no_cancel os = true ->
  Forall page_with_token (answers os) ->
  ctx_done s = false ->
  in_loop s ->
  returned s' = false.
Proof.
  revert s; induction os as [|o os IH]; simpl; intros s H NC G D J.
  - injection H as <-. unfold pagination.in_loop in J. unfold returned.
    destruct (at_ s); tauto.
  - destruct (step o s) as [s1|] eqn:E; [|discriminate].
    apply no_cancel_cons in NC. destruct NC as [NC1 NC].
    assert (G1 : Forall page_with_token (answers [o])
                 /\ Forall page_with_token (answers os)).
    { destruct o; simpl in *; auto. inversion G; auto. }
    destruct G1 as [G1 G2].
    apply (IH s1 H NC G2).
    + rewrite (step_ctx _ _ _ E NC1). exact D.
    + exact (step_loops _ _ _ E NC1 G1 D J).
Qed.

(** ** After a cancellation *)

Lemma run_exited (os : list (oracle Resp)) (s s' : state) :
  run os s = Some s' -> exited s = true ->
  exited s' = true /\ trace s' = trace s.
Proof.
  revert s; induction os as [|o os IH]; simpl; intros s H X.
  - injection H as <-. auto.
  - destruct (step o s) as [s1|] eqn:E; [|discriminate].
    unfold exited in X.
    step_inv E; simpl in *; try discriminate.
    destruct (IH _ H) as [X' T]; auto.
Qed.

(** One step under a cancelled context, of a goroutine that is not
    fetching: nothing happens, or an item of the page is sent, or the
    rest of the page is given up, or the item channel is closed. *)
Lemma step_cancelled (o : oracle Resp) (s s1 : state) :
  step o s = Some s1 -> ctx_done s = true -> winding s = true ->
  exited s = false ->
  ctx_done s1 = true /\ winding s1 = true
  /\ ((trace s1 = trace s /\ rest_of s1 = rest_of s /\ exited s1 = false)
      \/ (exists x, rest_of s = x :: rest_of s1
                    /\ trace s1 = trace s ++ [EvSend x] /\ exited s1 = false)
      \/ (rest_of s1 = [] /\ trace s1 = trace s /\ exited s1 = false)
      \/ (rest_of s = [] /\ trace s1 = trace s ++ [EvClose Item]
          /\ exited s1 = true)).
Proof.
  intros E D W X.
  unfold pagination.winding, pagination.exited, pagination.rest_of in *.
  step_inv E; simpl in *; try discriminate; try tauto; eauto 10.
Qed.

(** Under a cancelled context a goroutine that is not fetching sends at
    most the rest of its page, then closes the item channel: it neither
    fetches nor sends an error. *)
Lemma run_cancelled (os : list (oracle Resp)) (s s' : state) :
  run os s = Some s' -> ctx_done s = true -> winding s = true ->
  exited s = false ->
  exists more post,
    rest_of s = more ++ post
    /\ trace s' = trace s ++ map (@EvSend Item) more
                  ++ (if exited s' then [EvClose Item] else []).
Proof.
  revert s; induction os as [|o os IH]; simpl; intros s H D W X.
  - injection H as <-. exists [], (rest_of s). rewrite X. simpl.
    now rewrite app_nil_r.
  - destruct (step o s) as [s1|] eqn:E; [|discriminate].
    destruct (step_cancelled _ _ _ E D W X)
      as (D1 & W1 & [(T & R & X1)|[(x & R & T & X1)|[(R & T & X1)|(R & T & X1)]]]).
    + destruct (IH s1 H D1 W1 X1) as (more & post & R' & T').
      exists more, post. split; congruence.
    + destruct (IH s1 H D1 W1 X1) as (more & post & R' & T').
      exists (x :: more), post. split.
      * rewrite R, R'. reflexivity.
      * rewrite T', T, <- app_assoc. reflexivity.
    + destruct (IH s1 H D1 W1 X1) as (more & post & R' & T').
      rewrite R in R'. apply eq_sym, app_eq_nil in R'. destruct R' as [-> ->].
      exists [], (rest_of s). split; [reflexivity|]. now rewrite T', T.
    + destruct (run_exited _ _ _ H X1) as [X' T'].
      exists [], (@nil Item). split; [now rewrite R|].
      rewrite X', T', T. reflexivity.
Qed.

(** ** How an uncancelled goroutine has ended *)

Lemma exited_outcome (s : state) :
  outcome_ok s -> exited s = true -> ctx_done s = false ->
  (errors (trace s) = [] -> at_ s = Exited Resp Item Done)
  /\ (errors (trace s) <> [] -> at_ s = Exited Resp Item Failed).
Proof.
  unfold pagination.outcome_ok, pagination.exited.
  destruct (at_ s) as [| | | | |[]]; try discriminate; intros O _ D.
  - split; [reflexivity|]. intros E. now destruct E.
  - destruct O as (tr & e & -> & ? & ?). split; [|reflexivity].
    rewrite errors_app. simpl. intros E.
    apply app_eq_nil in E. destruct E. discriminate.
  - destruct O. congruence.
Qed.

(** ** When the transport answers with pages *)

Section Pages.

(** On a response that decodes and closes, the fetch executes the request
    of the operation, closes the body and returns the page. *)
Hypothesis fetch_page : forall (p : Resp) (r : Req),
  fetch (fun _ => page_response p) r = ([EDo (request r); EClose], Ok p).

Lemma page_response_with_token (p : Resp) :
  next_token p <> "" -> page_with_token (page_response p).
Proof.
  intros T r. exists p. now rewrite fetch_page.
Qed.

Lemma to_come_pages (pages : list Resp) (r : Req) :
  well_paged pages ->
  to_come r (map page_response pages) = page_events Op r pages ++ [EvClose Item].
Proof.
  revert r; induction pages as [|p ps IH]; intros r W; [destruct W|].
  simpl. rewrite fetch_page. simpl. do 2 f_equal.
  rewrite <- app_assoc. f_equal.
  destruct ps as [|p' ps].
  - simpl in W. rewrite W. reflexivity.
  - destruct W as [T W].
    apply String.eqb_neq in T. rewrite T. now apply IH.
Qed.

Lemma complete_pages (pages : list Resp) (r : Req) :
  well_paged pages -> complete r (map page_response pages).
Proof.
  revert r; induction pages as [|p ps IH]; intros r W; [destruct W|].
  simpl. rewrite fetch_page. simpl.
  destruct ps as [|p' ps].
  - simpl in W. rewrite W. reflexivity.
  - destruct W as [T W].
    apply String.eqb_neq in T. rewrite T. now apply IH.
Qed.

Lemma to_come_failure (pages : list Resp) (a : result (http.Response Resp))
    (e : error) (r : Req) :
  Forall (fun p => next_token p <> "") pages ->
  snd (fetch (fun _ => a) (req_after r pages)) = Err e ->
  to_come r (map page_response pages ++ [a])
  = page_events Op r pages
    ++ map (@EvIO Item) (fst (fetch (fun _ => a) (req_after r pages)))
    ++ [EvSendErr Item e; EvClose Item].
Proof.
  revert r; induction pages as [|p ps IH]; intros r T F; simpl in *.
  - destruct (fetch (fun _ => a) r) as [effs res]. simpl in *. now subst res.
  - rewrite fetch_page. simpl. do 2 f_equal.
    rewrite <- app_assoc. f_equal.
    inversion T as [|? ? T1 T2]; subst.
    apply String.eqb_neq in T1. rewrite T1. now apply IH.
Qed.

Lemma complete_failure (pages : list Resp) (a : result (http.Response Resp))
    (e : error) (r : Req) :
  Forall (fun p => next_token p <> "") pages ->
  snd (fetch (fun _ => a) (req_after r pages)) = Err e ->
  complete r (map page_response pages ++ [a]).
Proof.
  revert r; induction pages as [|p ps IH]; intros r T F; simpl in *.
  - now rewrite F.
  - rewrite fetch_page. simpl.
    inversion T as [|? ? T1 T2]; subst.
    apply String.eqb_neq in T1. rewrite T1. now apply IH.
Qed.

Lemma sent_page_events (pages : list Resp) (r : Req) :
  sent (page_events Op r pages) = List.concat (map items pages).
Proof.
  revert r; induction pages as [|p ps IH]; intros r; simpl; [reflexivity|].
  now rewrite sent_app, sent_sends, IH.
Qed.

Lemma errors_page_events (pages : list Resp) (r : Req) :
  errors (page_events Op r pages) = [].
Proof.
  revert r; induction pages as [|p ps IH]; intros r; simpl; [reflexivity|].
  now rewrite errors_app, errors_sends, IH.
Qed.

Lemma fetches_page_events (pages : list Resp) (r : Req) :
  List.length (fetches (page_events Op r pages)) = List.length pages.
Proof.
  revert r; induction pages as [|p ps IH]; intros r; simpl; [reflexivity|].
  rewrite fetches_app, fetches_sends. simpl. now rewrite IH.
Qed.

(** The goroutine walks through pages that all carry a token and stands
    at the top of its loop again. *)
Lemma eager_pages (pages : list Resp) (r : Req) (s : state) :
  Forall (fun p => next_token p <> "") pages ->
  at_ s = AtPoll Resp Item -> req s = r -> ctx_done s = false ->
  closed (itemCh s) = false ->
  exists s', run (eager r (map page_response pages)) s = Some s'
             /\ at_ s' = AtPoll Resp Item
             /\ trace s' = trace s ++ page_events Op r pages.
Proof.
  revert r s; induction pages as [|p ps IH]; intros r s T Ppc Rq D CI; simpl.
  - exists s. now rewrite app_nil_r.
  - inversion T as [|? ? T1 T2]; subst.
    unfold pagination.step at 1. rewrite Ppc, D. cbv beta iota.
    unfold pagination.step at 1. simpl. rewrite fetch_page. simpl.
    match goal with |- context [run (_ ++ _) ?s1] =>
      destruct (run_sends p (items p) s1 eq_refl CI)
        as (s2 & R2 & P2 & Rq2 & D2 & CI2 & CE2);
      pose proof (run_to_come _ _ _ [] R2) as TC end.
    rewrite run_app, R2. simpl in *.
    unfold pagination.step at 1. rewrite P2.
    apply String.eqb_neq in T1. rewrite T1.
    match goal with |- context [run _ ?s3] =>
      destruct (IH (set_token (req s) (next_token p)) s3 T2)
        as (s' & R & P' & Tr); simpl; auto; try congruence end.
    exists s'. repeat split; auto.
    rewrite Tr. simpl.
    specialize (TC (no_cancel_recv _) D).
    rewrite P2, answers_recv in TC. simpl in TC. rewrite T1 in TC.
    simpl in TC. rewrite !app_nil_r in TC. rewrite <- TC.
    rewrite <- !app_assoc. reflexivity.
Qed.

Lemma eager_answers_pages (pages : list Resp) (r : Req) :
  Forall (fun p => next_token p <> "") pages ->
  answers (eager r (map page_response pages)) = map page_response pages.
Proof.
  revert r; induction pages as [|p ps IH]; intros r T; simpl; [reflexivity|].
  inversion T as [|? ? T1 T2]; subst.
  rewrite fetch_page. simpl. rewrite answers_app, answers_recv. simpl.
  apply String.eqb_neq in T1. rewrite T1. now rewrite IH.
Qed.

End Pages.

End DriverFacts.

(* ================================================================== *)
(** * The three operations *)

Lemma operations_fetch_page (P : operation) :
  In P operations ->
  forall (p : Resp P) (r : Req P),
    fetch P (fun _ => page_response p) r = ([EDo (request P r); EClose], Ok p).
Proof.
  intros [<-|[<-|[<-|[]]]]; reflexivity.
Qed.

(** Whatever the transport answers, a fetch executes exactly one request,
    the one of the operation, and then at most closes the body. *)
Lemma operations_fetch_once (P : operation) :
  In P operations ->
  forall (c : http.Client (Resp P)) (r : Req P),
    fetches (map (@EvIO (Item P)) (fst (fetch P c r))) = [request P r].
Proof.
  intros [<-|[<-|[<-|[]]]] c r; simpl;
    [unfold albums.list|unfold mediaitems.list|unfold mediaitems.search];
    simpl; unfold Do, Decode, Close, lift, bind; simpl;
    destruct (c _) as [[code [[page|e] [e'|]]]|e'']; reflexivity.
Qed.

(** C1. Whenever the transport returns the pages P1..Pn, each but the last
    with a token and the last without, an uncancelled run of any of the
    three operations that has exited did exactly this: it fetched page 1,
    sent its items in order, fetched page 2 with the token of page 1, sent
    its items, and so on, and closed the item channel; the consumer has
    received the concatenation of the items of P1..Pn and no error.  Such
    a run exists; and at every moment of an uncancelled run on these
    pages, what has happened so far is a beginning of that sequence of
    events. *)
Theorem pagination_emits_all_pages :
  forall P, In P operations ->
  forall (r0 : Req P) (pages : list (Resp P)),
    well_paged (next_token P) pages ->
    (exists os s,
        go P r0 os = Some s /\ no_cancel os = true
        /\ answers os = map page_response pages /\ exited s = true)
    /\ (forall os s,
           go P r0 os = Some s -> no_cancel os = true ->
           answers os = map page_response pages -> exited s = true ->
           trace s = page_events P r0 pages ++ [EvClose (Item P)]
           /\ received (itemCh s) = List.concat (map (items P) pages)
           /\ received (errCh s) = []
           /\ at_ s = Exited (Resp P) (Item P) Done)
    /\ (forall os s later,
           go P r0 os = Some s -> no_cancel os = true ->
           answers os ++ later = map page_response pages ->
           exists to_come,
             trace s ++ to_come = page_events P r0 pages ++ [EvClose (Item P)]).
Proof.
  intros P HP r0 pages W.
  pose proof (operations_fetch_page P HP) as FP.
  pose proof (complete_pages P FP pages r0 W) as C.
  split; [|split].
  - destruct (eager_exits P _ r0 (start (Resp P) (Item P) r0) C)
      as (s & R & X); auto.
    eexists _, s. repeat split; eauto using eager_no_cancel, eager_answers.
  - intros os s G NC A X.
    pose proof (exited_trace P r0 os s G NC X) as T.
    rewrite A, (to_come_pages P FP pages r0 W) in T.
    destruct (go_invariants P r0 os s G) as [(C1 & C2 & C3 & C4 & C5) O].
    assert (E : errors (trace s) = []).
    { rewrite T, errors_app, errors_page_events; auto. }
    split; [exact T|]. split; [|split].
    + rewrite C3, T, sent_app, sent_page_events; auto. simpl. apply app_nil_r.
    + congruence.
    + apply (exited_outcome P s O X); auto.
      rewrite (run_ctx P os _ s G NC). reflexivity.
  - intros os s later G NC A.
    pose proof (run_to_come P os _ s later G NC eq_refl) as T.
    rewrite A in T. simpl in T.
    rewrite (to_come_pages P FP pages r0 W) in T.
    eexists. symmetry. exact T.
Qed.

Lemma pagination_emits_all_pages_witness :
  exists os s,
    albums.List example.first_request os = Some s
    /\ no_cancel os = true
    /\ answers os = [page_response example.page1; page_response example.page2]
    /\ received (itemCh s) = [example.album "A"; example.album "B"; example.album "C"]
    /\ received (errCh s) = []
    /\ fetches (trace s)
       = [albums.request example.first_request;
          albums.request (albums.set_PageToken example.first_request "x")].
Proof.
  assert (W : well_paged albums.NextPageToken [example.page1; example.page2])
    by (simpl; split; [discriminate | reflexivity]).
  destruct (pagination_emits_all_pages albums.List_op (or_introl eq_refl)
              example.first_request [example.page1; example.page2] W)
    as [(os & s & G & NC & A & X) [All _]].
  exists os, s.
  destruct (All os s G NC A X) as (T & R & E & O).
  repeat split; auto. rewrite T. reflexivity.
Defined.

(** C2. When the fetch of page K returns an error and the context is
    never cancelled, a run that has exited had fetched pages 1..K-1, sent
    their items, executed the failing request and no other after it (no
    retry, no further page), delivered that one error on the error channel
    as the last thing before closing the item channel.  Such a run
    exists. *)
Theorem pagination_fails_fast :
  forall P, In P operations ->
  forall (r0 : Req P) (pages : list (Resp P))
         (a : result (http.Response (Resp P))) (e : error),
    Forall (fun p => next_token P p <> "") pages ->
    snd (fetch P (fun _ => a)
           (req_after (next_token P) (set_token P) r0 pages)) = Err e ->
    (exists os s,
        go P r0 os = Some s /\ no_cancel os = true
        /\ answers os = map page_response pages ++ [a] /\ exited s = true)
    /\ (forall os s,
           go P r0 os = Some s -> no_cancel os = true ->
           answers os = map page_response pages ++ [a] -> exited s = true ->
           received (itemCh s) = List.concat (map (items P) pages)
           /\ received (errCh s) = [e]
           /\ fetches (trace s)
              = fetches (page_events P r0 pages)
                ++ [request P (req_after (next_token P) (set_token P) r0 pages)]
           /\ (exists tr, trace s = tr ++ [EvSendErr (Item P) e; EvClose (Item P)])
           /\ at_ s = Exited (Resp P) (Item P) Failed).
Proof.
  intros P HP r0 pages a e T F.
  pose proof (operations_fetch_page P HP) as FP.
  pose proof (complete_failure P FP pages a e r0 T F) as C.
  split.
  - destruct (eager_exits P _ r0 (start (Resp P) (Item P) r0) C)
      as (s & R & X); auto.
    eexists _, s. repeat split; eauto using eager_no_cancel, eager_answers.
  - intros os s G NC A X.
    pose proof (exited_trace P r0 os s G NC X) as Tr.
    rewrite A, (to_come_failure P FP pages a e r0 T F) in Tr.
    destruct (go_invariants P r0 os s G) as [(C1 & C2 & C3 & C4 & C5) O].
    assert (E : errors (trace s) = [e]).
    { rewrite Tr, !errors_app, errors_page_events, errors_io. reflexivity. }
    split; [|split; [|split; [|split]]].
    + rewrite C3, Tr, !sent_app, sent_page_events, sent_io. simpl.
      apply app_nil_r.
    + congruence.
    + rewrite Tr, !fetches_app, (operations_fetch_once P HP). simpl.
      reflexivity.
    + eexists. rewrite Tr, app_assoc. reflexivity.
    + apply (exited_outcome P s O X).
      * rewrite (run_ctx P os _ s G NC). reflexivity.
      * rewrite E. discriminate.
Qed.

Lemma pagination_fails_fast_witness :
  exists os s,
    albums.List example.first_request os = Some s
    /\ no_cancel os = true
    /\ answers os = [page_response example.page1; example.unreachable]
    /\ received (itemCh s) = [example.album "A"; example.album "B"]
    /\ received (errCh s) = ["dial tcp: connection refused"]
    /\ fetches (trace s)
       = [albums.request example.first_request;
          albums.request (albums.set_PageToken example.first_request "x")].
Proof.
  assert (T : Forall (fun p => albums.NextPageToken p <> "") [example.page1])
    by (repeat constructor; discriminate).
  destruct (pagination_fails_fast albums.List_op (or_introl eq_refl)
              example.first_request [example.page1] example.unreachable
              "dial tcp: connection refused" T eq_refl)
    as [(os & s & G & NC & A & X) All].
  exists os, s.
  destruct (All os s G NC A X) as (R & E & F & _ & _).
  repeat split; auto.
Defined.

(** C3, as the code has it.  When the context is cancelled while the
    goroutine stands in the range over a page with the items [rest] still
    to send, whatever happens next it sends at most a prefix [more] of
    [rest] (a pending send and the cancellation are the two cases of one
    [select], and the send may still be taken), nothing of another page,
    delivers no error and executes no further request; and if the
    [select] takes the cancellation case at once, it sends nothing
    more. *)
Theorem cancellation_winds_down :
  forall P, In P operations ->
  forall (r0 : Req P) os1 os2 (s1 s2 : State P) resp rest,
    go P r0 os1 = Some s1 ->
    at_ s1 = AtRange resp rest ->
    run (fetch P) (items P) (next_token P) (set_token P)
      (Cancel (Resp P) :: os2) s1 = Some s2 ->
    (exists more post,
        rest = more ++ post
        /\ trace s2 = trace s1 ++ map (@EvSend (Item P)) more
                      ++ (if exited s2 then [EvClose (Item P)] else []))
    /\ received (errCh s2) = []
    /\ fetches (trace s2) = fetches (trace s1)
    /\ (forall os3, os2 = PickDone (Resp P) :: os3 ->
                    received (itemCh s2) = received (itemCh s1)).
Proof.
  intros P HP r0 os1 os2 s1 s2 resp rest G1 A1 R.
  destruct (go_invariants P r0 os1 s1 G1) as [K1 O1].
  assert (K2 : consistent s2 /\ outcome_ok s2)
    by (eapply run_invariants; eauto).
  destruct K1 as (_ & _ & I1 & E1 & _). destruct K2 as [(_ & _ & I2 & E2 & _) _].
  simpl in R. unfold pagination.step in R. simpl in R.
  match type of R with
  | run _ _ _ _ _ ?s = _ => set (sc := s) in *
  end.
  assert (D : ctx_done sc = true) by reflexivity.
  assert (W : winding sc = true) by (unfold winding; simpl; now rewrite A1).
  assert (X : exited sc = false) by (unfold exited; simpl; now rewrite A1).
  assert (RO : rest_of sc = rest) by (unfold rest_of; simpl; now rewrite A1).
  destruct (run_cancelled P os2 sc s2 R D W X) as (more & post & Rm & Tm).
  rewrite RO in Rm. change (trace sc) with (trace s1) in Tm.
  split; [eauto|].
  split; [|split].
  - unfold outcome_ok in O1. rewrite A1 in O1.
    rewrite E2, Tm, !errors_app, errors_sends, O1.
    destruct (exited s2); reflexivity.
  - rewrite Tm, !fetches_app, fetches_sends.
    destruct (exited s2); simpl; now rewrite app_nil_r.
  - intros os3 ->. simpl in R.
    destruct rest as [|x rest'].
    + unfold pagination.step in R. simpl in R. rewrite A1 in R. discriminate.
    + unfold pagination.step in R at 1. simpl in R. rewrite A1 in R.
      simpl in R.
      match type of R with
      | run _ _ _ _ _ ?s = _ =>
          destruct (run_cancelled P os3 s s2 R eq_refl eq_refl eq_refl)
            as (more' & post' & Rm' & Tm')
      end.
      unfold rest_of in Rm'. simpl in Rm'.
      apply eq_sym, app_eq_nil in Rm'. destruct Rm' as [-> ->].
      simpl in Tm'. rewrite I1, I2, Tm', sent_app.
      destruct (exited s2); simpl; now rewrite app_nil_r.
Qed.

Lemma cancellation_winds_down_witness :
  exists s1 s2,
    albums.List example.first_request
      [Tick _; Answer (page_response example.page1); RecvItem _] = Some s1
    /\ at_ s1 = AtRange example.page1 [example.album "B"]
    /\ run albums.list albums.Albums albums.NextPageToken albums.set_PageToken
         [Cancel _; PickDone _; Tick _] s1 = Some s2
    /\ received (itemCh s2) = [example.album "A"]
    /\ received (errCh s2) = []
    /\ fetches (trace s2) = [albums.request example.first_request].
Proof.
  eexists. eexists.
  split; [reflexivity|]. split; [reflexivity|]. split; [reflexivity|].
  match goal with
  | |- received (itemCh ?s2) = _ /\ _ =>
      destruct (cancellation_winds_down albums.List_op (or_introl eq_refl)
                  example.first_request
                  [Tick _; Answer (page_response example.page1); RecvItem _]
                  [PickDone _; Tick _] _ s2 example.page1 [example.album "B"]
                  eq_refl eq_refl eq_refl) as (_ & E & F & I)
  end.
  split; [exact (I _ eq_refl)|]. split; [exact E | exact F].
Defined.

(** C3, as it is stated, fails: the context is cancelled after one item
    of the page [A, B] has been sent and before the other, and the
    goroutine still sends [B] to a consumer that is receiving. *)
Lemma cancelled_select_may_still_send :
  exists s1 s2,
    albums.List example.first_request
      [Tick _; Answer (page_response example.page1); RecvItem _] = Some s1
    /\ at_ s1 = AtRange example.page1 [example.album "B"]
    /\ ctx_done s1 = false
    /\ received (itemCh s1) = [example.album "A"]
    /\ run albums.list albums.Albums albums.NextPageToken albums.set_PageToken
         [Cancel _; RecvItem _; Tick _; Tick _; Tick _] s1 = Some s2
    /\ at_ s2 = Exited _ _ Cancelled
    /\ received (itemCh s2) = [example.album "A"; example.album "B"].
Proof.
  eexists. eexists. repeat split; reflexivity.
Qed.

(** C7. The loop looks at nothing but the emptiness of the token.  As
    long as the context is not cancelled and every fetch yields a page
    that carries a token, the goroutine has not returned and the item
    channel is open, however long the run; and on a transport that
    answers every request with the same page and the same token the
    goroutine can be run to any number of fetches, fetching and sending
    that page again and again. *)
Theorem pagination_never_ends_by_itself :
  forall P, In P operations ->
    (forall (r0 : Req P) os s,
        go P r0 os = Some s -> no_cancel os = true ->
        Forall (page_with_token (fetch P) (next_token P)) (answers os) ->
        returned s = false /\ closed (itemCh s) = false)
    /\ (forall (r0 : Req P) (p : Resp P),
           next_token P p <> "" ->
           forall k, exists os s,
             go P r0 os = Some s /\ no_cancel os = true
             /\ answers os = repeat (page_response p) k
             /\ trace s = page_events P r0 (repeat p k)
             /\ List.length (fetches (trace s)) = k
             /\ received (itemCh s) = List.concat (repeat (items P p) k)).
Proof.
  intros P HP.
  pose proof (operations_fetch_page P HP) as FP.
  split.
  - intros r0 os s G NC A.
    assert (R : returned s = false)
      by (apply (run_loops P os _ s G NC A); [reflexivity | exact I]).
    split; [exact R|].
    destruct (go_invariants P r0 os s G) as [(_ & C2 & _) _].
    rewrite C2. unfold returned, exited in *. destruct (at_ s); congruence.
  - intros r0 p T k.
    assert (F : Forall (fun q => next_token P q <> "") (repeat p k)).
    { apply Forall_forall. intros q Hq. apply repeat_spec in Hq. now subst. }
    destruct (eager_pages P FP (repeat p k) r0 (start (Resp P) (Item P) r0) F)
      as (s & R & A & Tr); auto.
    eexists _, s. split; [exact R|].
    split; [apply eager_no_cancel|].
    split; [rewrite (eager_answers_pages P FP _ r0 F); apply map_repeat|].
    destruct (go_invariants P r0 _ s R) as [(_ & _ & C3 & _) _].
    simpl in Tr. rewrite C3, Tr.
    split; [reflexivity|]. split.
    + rewrite (fetches_page_events P). apply repeat_length.
    + rewrite (sent_page_events P), map_repeat. reflexivity.
Qed.

Lemma pagination_never_ends_by_itself_witness :
  exists os s,
    albums.List example.first_request os = Some s
    /\ answers os = repeat (page_response example.page1) 3
    /\ List.length (fetches (trace s)) = 3
    /\ returned s = false
    /\ closed (itemCh s) = false.
Proof.
  destruct (pagination_never_ends_by_itself albums.List_op (or_introl eq_refl))
    as [Never Often].
  assert (T : albums.NextPageToken example.page1 <> "") by discriminate.
  destruct (Often example.first_request example.page1 T 3)
    as (os & s & G & NC & A & _ & F & _).
  exists os, s.
  assert (W : Forall (page_with_token albums.list albums.NextPageToken)
                (answers os)).
  { rewrite A. repeat constructor; intros r; exists example.page1;
      (split; [reflexivity | discriminate]). }
  destruct (Never example.first_request os s G NC W) as [R C].
  repeat split; assumption.
Defined.

(** C8. In every run that has ended [Failed], the one error was sent on
    the error channel, and received, right before the item channel was
    closed: nothing was closed and no other error sent before it.  In
    between, when the goroutine has returned and its deferred close is
    still to run, the error has been received and the item channel is
    open. *)
Theorem error_precedes_close :
  forall P, In P operations ->
  forall (r0 : Req P) os s,
    go P r0 os = Some s ->
    (at_ s = AtReturn (Resp P) (Item P) Failed ->
     exists tr e,
       trace s = tr ++ [EvSendErr (Item P) e]
       /\ errors tr = [] /\ closes tr = 0%nat
       /\ received (errCh s) = [e] /\ closed (itemCh s) = false)
    /\ (at_ s = Exited (Resp P) (Item P) Failed ->
        exists tr e,
          trace s = tr ++ [EvSendErr (Item P) e; EvClose (Item P)]
          /\ errors tr = [] /\ closes tr = 0%nat
          /\ received (errCh s) = [e] /\ closed (itemCh s) = true).
Proof.
  intros P HP r0 os s G.
  destruct (go_invariants P r0 os s G) as [(C1 & C2 & C3 & C4 & C5) O].
  unfold outcome_ok, exited in *.
  split; intros A; rewrite A in *; destruct O as (tr & e & T & E & C);
    exists tr, e; rewrite C4, T, errors_app, E; auto.
Qed.

Lemma error_precedes_close_witness :
  exists s tr,
    albums.List example.first_request
      [Tick _; Answer example.unreachable; RecvErr _; Tick _] = Some s
    /\ at_ s = Exited _ _ Failed
    /\ trace s = tr ++ [EvSendErr _ "dial tcp: connection refused"; EvClose _]
    /\ errors tr = [] /\ closes tr = 0%nat
    /\ received (errCh s) = ["dial tcp: connection refused"].
Proof.
  destruct (albums.List example.first_request
              [Tick _; Answer example.unreachable; RecvErr _; Tick _])
    as [s|] eqn:G; [|vm_compute in G; discriminate G].
  assert (A : at_ s = Exited _ _ Failed)
    by (vm_compute in G; injection G as <-; reflexivity).
  assert (R' : received (errCh s) = ["dial tcp: connection refused"])
    by (vm_compute in G; injection G as <-; reflexivity).
  destruct (error_precedes_close albums.List_op (or_introl eq_refl)
              example.first_request _ s G) as [_ X].
  destruct (X A) as (tr & e & T & E & C & R & _).
  rewrite R' in R. injection R as <-.
  exists s, tr. repeat split; assumption.
Defined.

(** C10. No operation ever closes its error channel: in every state of
    every run, under any schedule, the error channel is open; so it is
    in the states where the goroutine has exited and the item channel is
    closed. *)
Theorem error_channel_never_closed :
  forall P, In P operations ->
  forall (r0 : Req P) os s,
    go P r0 os = Some s ->
    closed (errCh s) = false
    /\ (exited s = true -> closed (itemCh s) = true /\ closed (errCh s) = false).
Proof.
  intros P HP r0 os s G.
  destruct (go_invariants P r0 os s G) as [(C1 & C2 & _) _].
  split; [exact C1|]. intros X. rewrite C2. auto.
Qed.

Lemma error_channel_never_closed_witness :
  exists s,
    albums.List example.first_request [Cancel _; Tick _; Tick _] = Some s
    /\ at_ s = Exited _ _ Cancelled
    /\ closed (itemCh s) = true
    /\ closed (errCh s) = false.
Proof.
  destruct (albums.List example.first_request [Cancel _; Tick _; Tick _])
    as [s|] eqn:G; [|vm_compute in G; discriminate G].
  assert (A : at_ s = Exited _ _ Cancelled)
    by (vm_compute in G; injection G as <-; reflexivity).
  destruct (error_channel_never_closed albums.List_op (or_introl eq_refl)
              example.first_request _ s G) as [E X].
  exists s. split; [reflexivity|]. split; [exact A|].
  apply X. unfold exited. now rewrite A.
Defined.

(* ================================================================== *)
(** * Facts about [net/url] and [strconv] *)

Section UrlFacts.

Import url.













End UrlFacts.

(* ================================================================== *)
(** * The request builder *)

Lemma albums_Encode_list_values (r : albums.ListAlbumsRequest) :
  url.Encode (albums.list_values r)
  = list_query (albums.PageSize r) (albums.PageToken r)
      (albums.ExcludeNonAppCreatedData r).
Proof.
  destruct r as [size token exclude].
  unfold albums.list_values, list_query. simpl.
  destruct (size >? 0)%Z, (String.eqb token ""), exclude; reflexivity.
Qed.

Lemma mediaitems_Encode_list_values (r : mediaitems.ListMediaItemsRequest) :
  url.Encode (mediaitems.list_values r)
  = list_query (mediaitems.PageSize r) (mediaitems.PageToken r)
      (mediaitems.ExcludeNonAppCreatedData r).
Proof.
  destruct r as [size token exclude].
  unfold mediaitems.list_values, list_query. simpl.
  destruct (size >? 0)%Z, (String.eqb token ""), exclude; reflexivity.
Qed.

(** C4, as the code has it.  Whatever the transport, the one request a
    list fetch executes has the query string [list_query]: the page size
    appears only when it is positive and the page token only when it is
    not empty, but [excludeNonAppCreatedData] is always written, as
    [true] or as [false]. *)
Theorem list_query_string :
  (forall (c : http.Client albums.ListAlbumsResponse)
          (r : albums.ListAlbumsRequest),
      exists tail,
        fst (albums.list c r)
        = EDo {| http.Method := "GET";
                 http.URL :=
                   {| url.Scheme := "https";
                      url.Host := "photoslibrary.googleapis.com";
                      url.Path := "v1/albums";
                      url.RawQuery :=
                        list_query (albums.PageSize r) (albums.PageToken r)
                          (albums.ExcludeNonAppCreatedData r) |};
                 http.ReqBody := None |} :: tail)
  /\ (forall (c : http.Client mediaitems.ListMediaItemsResponse)
             (r : mediaitems.ListMediaItemsRequest),
         exists tail,
           fst (mediaitems.list c r)
           = EDo {| http.Method := "GET";
                    http.URL :=
                      {| url.Scheme := "https";
                         url.Host := "photoslibrary.googleapis.com";
                         url.Path := "v1/mediaItems";
                         url.RawQuery :=
                           list_query (mediaitems.PageSize r)
                             (mediaitems.PageToken r)
                             (mediaitems.ExcludeNonAppCreatedData r) |};
                    http.ReqBody := None |} :: tail).
Proof.
  split; intros c r.
  - rewrite <- albums_Encode_list_values.
    unfold albums.list, Do, Decode, Close, lift, bind; simpl.
    destruct (c _) as [[code [[page|e] [e'|]]]|e'']; simpl; eauto.
  - rewrite <- mediaitems_Encode_list_values.
    unfold mediaitems.list, Do, Decode, Close, lift, bind; simpl.
    destruct (c _) as [[code [[page|e] [e'|]]]|e'']; simpl; eauto.
Qed.

(** C4, as it is stated, fails: the request with every field at its zero
    value is sent with [excludeNonAppCreatedData=false] in its query. *)
Lemma zero_request_sends_false :
  fst (albums.list (fun _ => example.unreachable) example.first_request)
  = [EDo {| http.Method := "GET";
            http.URL :=
              {| url.Scheme := "https";
                 url.Host := "photoslibrary.googleapis.com";
                 url.Path := "v1/albums";
                 url.RawQuery := "excludeNonAppCreatedData=false" |};
            http.ReqBody := None |}].
Proof. reflexivity. Qed.




(* ================================================================== *)
(** * The response body *)

(** C5 fails on the code.  When the transport answers and the body does
    not decode, the fetch returns the decoding error having executed the
    request and nothing else: [resp.Body.Close()] is not called. *)
Theorem body_left_open_on_decode_error :
  forall P, In P operations ->
  forall (c : http.Client (Resp P)) (r : Req P)
         (resp : http.Response (Resp P)) (e : error),
    c (request P r) = Ok resp ->
    http.decoded (http.Body resp) = Err e ->
    fetch P c r = ([EDo (request P r)], Err e)
    /\ ~ In EClose (fst (fetch P c r)).
Proof.
  intros P [<-|[<-|[<-|[]]]] c r resp e C D; simpl in *;
    [unfold albums.list|unfold mediaitems.list|unfold mediaitems.search];
    unfold Do, Decode, Close, lift, bind; simpl;
    [change (c _) with (c (albums.request r))
    |change (c _) with (c (mediaitems.request r))
    |change (c _) with (c (mediaitems.search_request r))];
    rewrite C, D; simpl; (split; [reflexivity|]);
    intros [H|[]]; discriminate H.
Qed.

Lemma body_left_open_on_decode_error_witness :
  albums.list (fun _ => Ok (example.garbled _)) example.first_request
  = ([EDo (albums.request example.first_request)],
     Err "invalid character '<' looking for beginning of value")
  /\ ~ In EClose
       (fst (albums.list (fun _ => Ok (example.garbled _)) example.first_request)).
Proof.
  exact (body_left_open_on_decode_error albums.List_op (or_introl eq_refl)
           (fun _ => Ok (example.garbled _)) example.first_request
           (example.garbled _) _ eq_refl eq_refl).
Defined.

(** When the body decodes, it is closed. *)
Lemma body_closed_after_decode :
  forall P, In P operations ->
  forall (c : http.Client (Resp P)) (r : Req P)
         (resp : http.Response (Resp P)) (page : Resp P),
    c (request P r) = Ok resp ->
    http.decoded (http.Body resp) = Ok page ->
    fst (fetch P c r) = [EDo (request P r); EClose].
Proof.
  intros P [<-|[<-|[<-|[]]]] c r resp page C D; simpl in *;
    [unfold albums.list|unfold mediaitems.list|unfold mediaitems.search];
    unfold Do, Decode, Close, lift, bind; simpl;
    [change (c _) with (c (albums.request r))
    |change (c _) with (c (mediaitems.request r))
    |change (c _) with (c (mediaitems.search_request r))];
    rewrite C, D; simpl; destruct (http.close_err _); reflexivity.
Qed.

(* ================================================================== *)
(** * The login callback *)

(** The handler compares the state of the callback with itself: it never
    answers 401 and always hands the code over. *)
Lemma handler_accepts_any_state (rawQuery : string) :
  oauth2.handler rawQuery
  = ({| oauth2.status := 200; oauth2.written := "Authenticated Successfully" |},
     Some (url.Get (url.ParseQuery rawQuery) "code")).
Proof.
  unfold oauth2.handler. now rewrite String.eqb_refl.
Qed.

(** C6 fails on the code.  The login whose state is [AAAAAAAAAAAAAA==] is
    reached by a callback with the state [forged]: the listener answers
    200, the code goes to the token exchange, and [NewClient] returns a
    client. *)
Theorem forged_state_reaches_exchange :
  oauth2.NewClient example.forged_login
  = {| oauth2.state_nonce := "AAAAAAAAAAAAAA==";
       oauth2.replies :=
         [{| oauth2.status := 200;
             oauth2.written := "Authenticated Successfully" |}];
       oauth2.exchanged := ["stolen"];
       oauth2.returned := Some (Ok "token for stolen") |}
  /\ url.Get (url.ParseQuery "code=stolen&state=forged") oauth2.stateURLQueryKey
     = "forged".
Proof. split; reflexivity. Qed.

(* ================================================================== *)
(** * Further facts about the goroutine *)

Section Shutdown.

Variable Op : operation.

Notation Req := (pagination.Req Op).
Notation Resp := (pagination.Resp Op).
Notation Item := (pagination.Item Op).
Notation state := (pagination.state Req Resp Item).
Notation step := (pagination.step (pagination.fetch Op) (pagination.items Op)
                    (pagination.next_token Op) (pagination.set_token Op)).
Notation run := (pagination.run (pagination.fetch Op) (pagination.items Op)
                   (pagination.next_token Op) (pagination.set_token Op)).

(** A goroutine that polls a cancelled context returns [Cancelled]. *)
Lemma run_cancelled_at_poll (os : list (oracle Resp)) (s s' : state) :
  run os s = Some s' -> ctx_done s = true ->
  (at_ s = AtPoll Resp Item \/ at_ s = AtReturn Resp Item Cancelled
   \/ at_ s = Exited Resp Item Cancelled) ->
  at_ s' = AtPoll Resp Item \/ at_ s' = AtReturn Resp Item Cancelled
  \/ at_ s' = Exited Resp Item Cancelled.
Proof.
  revert s; induction os as [|o os IH]; simpl; intros s H D A.
  - now injection H as <-.
  - destruct (step o s) as [s1|] eqn:E; [|discriminate].
    apply (IH s1 H).
    + eapply step_ctx_mono; eauto.
    + unfold pagination.step in E.
      destruct A as [A|[A|A]]; rewrite A in E; destruct o;
        try discriminate E; rewrite ?D in E; simpl in E;
        try (destruct (close (itemCh s)); [|discriminate E]);
        injection E as <-; simpl; auto.
Qed.

(** A goroutine blocked in the send of its error moves only when the
    error is received. *)
Lemma run_blocked_on_error (os : list (oracle Resp)) (s s' : state) (e : error) :
  run os s = Some s' -> at_ s = AtSendErr Resp Item e ->
  @runs.no_recv_err Op os = true ->
  at_ s' = AtSendErr Resp Item e /\ trace s' = trace s
  /\ itemCh s' = itemCh s /\ errCh s' = errCh s.
Proof.
  revert s; induction os as [|o os IH]; simpl; intros s H A N.
  - injection H as <-. auto.
  - destruct (step o s) as [s1|] eqn:E; [|discriminate].
    unfold pagination.step in E. rewrite A in E.
    destruct o; try discriminate E; try discriminate N.
    injection E as <-.
    destruct (IH _ H) as (A' & T & I & C); auto.
Qed.

(** From a place where the goroutine is neither fetching nor handing over
    an error, cancelling is enough to end it. *)
Lemma shutdown_exits (s : state) :
  winding s = true -> exited s = false -> closed (itemCh s) = false ->
  exists s',
    run (@runs.shutdown Op (at_ s)) s = Some s'
    /\ exited s' = true
    /\ trace s' = trace s ++ [EvClose Item]
    /\ errCh s' = errCh s.
Proof.
  unfold winding, exited. intros W X C.
  destruct (at_ s) as [| | |resp [|x rest]|o|o] eqn:A; try discriminate;
    unfold runs.shutdown;
    try destruct (String.eqb (next_token Op resp) "") eqn:T;
    simpl; unfold pagination.step; simpl; rewrite ?A; simpl; rewrite ?T;
    simpl; unfold close; simpl; rewrite C; simpl;
    eexists; repeat split; reflexivity.
Qed.

Lemma shutdown_left_alone (p : pc Resp Item) :
  @runs.left_alone Op (@runs.shutdown Op p) = true.
Proof.
  destruct p as [| | |resp [|x rest]|o|o]; simpl; auto.
  destruct (String.eqb (next_token Op resp) ""); reflexivity.
Qed.

End Shutdown.

(** X1. When the context is cancelled before the goroutine first looks at
    it, nothing is fetched, no item and no error is sent, whatever the
    schedule does afterwards; the goroutine can only return
    [Cancelled]. *)
Theorem cancelled_before_start :
  forall (P : operation) (r0 : Req P) os (s : State P),
    go P r0 (Cancel (Resp P) :: os) = Some s ->
    fetches (trace s) = []
    /\ received (itemCh s) = []
    /\ received (errCh s) = []
    /\ (exited s = true -> at_ s = Exited (Resp P) (Item P) Cancelled).
Proof.
  intros P r0 os s G.
  destruct (go_invariants P r0 _ s G) as [(_ & _ & I & E & _) _].
  unfold go in G. simpl in G. unfold pagination.step in G. simpl in G.
  destruct (run_cancelled P os _ s G eq_refl eq_refl eq_refl)
    as (more & post & R & T).
  apply eq_sym, app_eq_nil in R. destruct R as [-> ->].
  simpl in T.
  destruct (run_cancelled_at_poll P os _ s G eq_refl (or_introl eq_refl))
    as [A|[A|A]].
  - unfold exited in *. rewrite A in *.
    rewrite I, E, T. repeat split; auto. discriminate.
  - unfold exited in *. rewrite A in *.
    rewrite I, E, T. repeat split; auto. discriminate.
  - unfold exited in *. rewrite A in *.
    rewrite I, E, T. repeat split; auto.
Qed.

Lemma cancelled_before_start_witness :
  exists s,
    albums.List example.first_request [Cancel _; Tick _; Tick _] = Some s
    /\ at_ s = Exited _ _ Cancelled
    /\ fetches (trace s) = []
    /\ received (itemCh s) = []
    /\ received (errCh s) = [].
Proof.
  destruct (albums.List example.first_request [Cancel _; Tick _; Tick _])
    as [s|] eqn:G; [|vm_compute in G; discriminate G].
  destruct (cancelled_before_start albums.List_op example.first_request
              [Tick _; Tick _] s G) as (F & I & E & X).
  exists s. split; [reflexivity|].
  split; [|auto].
  apply X. vm_compute in G. injection G as <-. reflexivity.
Defined.

(** X2. A goroutine blocked in [errCh <- err] moves only when the error is
    received: as long as the consumer does not receive from the error
    channel the goroutine stays where it is, cancelled or not, sends
    nothing, and the item channel stays open. *)
Theorem error_send_is_not_cancellable :
  forall (P : operation) (r0 : Req P) os1 os2 (s1 s2 : State P) (e : error),
    go P r0 os1 = Some s1 ->
    at_ s1 = AtSendErr (Resp P) (Item P) e ->
    run (fetch P) (items P) (next_token P) (set_token P) os2 s1 = Some s2 ->
    @runs.no_recv_err P os2 = true ->
    at_ s2 = AtSendErr (Resp P) (Item P) e
    /\ trace s2 = trace s1
    /\ closed (itemCh s2) = false
    /\ received (errCh s2) = [].
Proof.
  intros P r0 os1 os2 s1 s2 e G A R N.
  destruct (go_invariants P r0 os1 s1 G) as [(_ & C & _ & E & _) O].
  destruct (run_blocked_on_error P os2 s1 s2 e R A N) as (A' & T & I & C').
  unfold outcome_ok in O. unfold exited in C. rewrite A in O, C.
  rewrite I, C', E. auto.
Qed.

Lemma error_send_is_not_cancellable_witness :
  exists s1 s2,
    albums.List example.first_request [Tick _; Answer example.unreachable]
    = Some s1
    /\ run albums.list albums.Albums albums.NextPageToken albums.set_PageToken
         [Cancel _; Tick _; Cancel _] s1 = None
    /\ run albums.list albums.Albums albums.NextPageToken albums.set_PageToken
         [Cancel _; Cancel _] s1 = Some s2
    /\ at_ s2 = AtSendErr _ _ "dial tcp: connection refused"
    /\ ctx_done s2 = true
    /\ closed (itemCh s2) = false.
Proof.
  destruct (albums.List example.first_request [Tick _; Answer example.unreachable])
    as [s1|] eqn:G; [|vm_compute in G; discriminate G].
  assert (A : at_ s1 = AtSendErr _ _ "dial tcp: connection refused")
    by (vm_compute in G; injection G as <-; reflexivity).
  destruct (run albums.list albums.Albums albums.NextPageToken
              albums.set_PageToken [Cancel _; Cancel _] s1) as [s2|] eqn:R;
    [|vm_compute in G; injection G as <-; vm_compute in R; discriminate R].
  destruct (error_send_is_not_cancellable albums.List_op example.first_request
              _ [Cancel _; Cancel _] s1 s2 _ G A R eq_refl) as (A2 & _ & C & _).
  exists s1, s2. split; [reflexivity|].
  split; [|split; [exact R|split; [exact A2|split; [|exact C]]]].
  - vm_compute in G. injection G as <-. reflexivity.
  - vm_compute in G. injection G as <-. vm_compute in R. injection R as <-.
    reflexivity.
Defined.

(** X3. A pending item never holds the goroutine back: from every place
    where it is neither fetching nor handing over an error, cancelling
    the context is enough to make it close the item channel and exit,
    with no receive by the consumer and nothing else sent. *)
Theorem cancellation_ends_goroutine :
  forall (P : operation) (r0 : Req P) os (s : State P),
    go P r0 os = Some s ->
    winding s = true -> exited s = false ->
    exists os' s',
      @runs.left_alone P os' = true
      /\ run (fetch P) (items P) (next_token P) (set_token P) os' s = Some s'
      /\ exited s' = true
      /\ trace s' = trace s ++ [EvClose (Item P)]
      /\ received (errCh s') = received (errCh s).
Proof.
  intros P r0 os s G W X.
  destruct (go_invariants P r0 os s G) as [(_ & C & _) _].
  rewrite X in C.
  destruct (shutdown_exits P s W X C) as (s' & R & X' & T & E).
  exists (@runs.shutdown P (at_ s)), s'.
  rewrite E. auto using shutdown_left_alone.
Qed.

Lemma cancellation_ends_goroutine_witness :
  exists s os' s',
    albums.List example.first_request
      [Tick _; Answer (page_response example.page1); RecvItem _] = Some s
    /\ at_ s = AtRange example.page1 [example.album "B"]
    /\ @runs.left_alone albums.List_op os' = true
    /\ run albums.list albums.Albums albums.NextPageToken albums.set_PageToken
         os' s = Some s'
    /\ exited s' = true
    /\ received (itemCh s') = [example.album "A"].
Proof.
  destruct (albums.List example.first_request
              [Tick _; Answer (page_response example.page1); RecvItem _])
    as [s|] eqn:G; [|vm_compute in G; discriminate G].
  assert (A : at_ s = AtRange example.page1 [example.album "B"])
    by (vm_compute in G; injection G as <-; reflexivity).
  assert (S : sent (trace s) = [example.album "A"])
    by (vm_compute in G; injection G as <-; reflexivity).
  destruct (cancellation_ends_goroutine albums.List_op example.first_request
              _ s G) as (os' & s' & L & R & X & T & _).
  { unfold winding. now rewrite A. }
  { unfold exited. now rewrite A. }
  exists s, os', s'. repeat split; auto.
  assert (K : consistent s' /\ outcome_ok s').
  { eapply run_invariants; [exact R| |];
      eapply (go_invariants albums.List_op); exact G. }
  destruct K as [(_ & _ & I & _) _].
  transitivity (sent (trace s')); [exact I|].
  transitivity (sent (trace s ++ [EvClose albums.Album])); [now rewrite T|].
  rewrite (sent_app albums.List_op). simpl.
  transitivity (sent (trace s)); [apply app_nil_r | exact S].
Defined.

(** X4. The goroutine never panics on its channels: in every state it can
    reach, the error channel is open when it sends its error, the item
    channel is open when it sends an item and when its deferred close
    runs; and the item channel has been closed once when the goroutine
    has exited, never before and never twice. *)
Theorem goroutine_never_panics :
  forall (P : operation) (r0 : Req P) os (s : State P),
    go P r0 os = Some s ->
    (forall e, at_ s = AtSendErr (Resp P) (Item P) e ->
               step (fetch P) (items P) (next_token P) (set_token P)
                 (RecvErr (Resp P)) s <> None)
    /\ (forall resp x rest, at_ s = AtRange resp (x :: rest) ->
               step (fetch P) (items P) (next_token P) (set_token P)
                 (RecvItem (Resp P)) s <> None)
    /\ (forall o, at_ s = AtReturn (Resp P) (Item P) o ->
               step (fetch P) (items P) (next_token P) (set_token P)
                 (Tick (Resp P)) s <> None)
    /\ closes (trace s) = (if exited s then 1 else 0)%nat
    /\ closed (itemCh s) = exited s.
Proof.
  intros P r0 os s G.
  destruct (go_invariants P r0 os s G) as [(C1 & C2 & _ & _ & C5) _].
  unfold exited in *.
  repeat split; auto.
  - intros e A. unfold pagination.step, send. rewrite A, C1. discriminate.
  - intros resp x rest A. unfold pagination.step, send. rewrite A in *.
    rewrite C2. discriminate.
  - intros o A. unfold pagination.step, close. rewrite A in *.
    rewrite C2. discriminate.
Qed.

Lemma goroutine_never_panics_witness :
  exists s,
    albums.List example.first_request
      [Tick _; Answer (page_response example.page2); RecvItem _; Tick _]
    = Some s
    /\ at_ s = AtReturn _ _ Done
    /\ step albums.list albums.Albums albums.NextPageToken albums.set_PageToken
         (Tick _) s <> None
    /\ closed (itemCh s) = false.
Proof.
  destruct (albums.List example.first_request
              [Tick _; Answer (page_response example.page2); RecvItem _; Tick _])
    as [s|] eqn:G; [|vm_compute in G; discriminate G].
  assert (A : at_ s = AtReturn _ _ Done)
    by (vm_compute in G; injection G as <-; reflexivity).
  destruct (goroutine_never_panics albums.List_op example.first_request _ s G)
    as (_ & _ & T & _ & C).
  exists s. split; [reflexivity|]. split; [exact A|].
  split; [exact (T _ A)|]. rewrite C. unfold exited. now rewrite A.
Defined.

(** Splits a successful step into the cases of the program. *)
Ltac step_cases H :=
  match type of H with
  | pagination.step _ _ _ _ ?o ?s = Some _ =>
      unfold pagination.step in H;
      destruct o; destruct (at_ s) eqn:?; try discriminate H;
      cbv beta iota in H;
      repeat match type of H with
        | context [match ?l with [] => _ | _ :: _ => _ end] =>
            destruct l eqn:?; try discriminate H
        | context [if ?b then _ else _] =>
            destruct b eqn:?; try discriminate H
        | context [let '(_, _) := ?p in _] =>
            destruct p eqn:?; try discriminate H
        | context [match ?r with Ok _ => _ | Err _ => _ end] =>
            destruct r eqn:?; try discriminate H
        | context [match ?r with Some _ => _ | None => _ end] =>
            destruct r eqn:?; try discriminate H
        end;
      injection H as H; subst
  end.

Section Order.

Variable Op : operation.

Notation Req := (pagination.Req Op).
Notation Resp := (pagination.Resp Op).
Notation Item := (pagination.Item Op).
Notation state := (pagination.state Req Resp Item).
Notation step := (pagination.step (pagination.fetch Op) (pagination.items Op)
                    (pagination.next_token Op) (pagination.set_token Op)).
Notation run := (pagination.run (pagination.fetch Op) (pagination.items Op)
                   (pagination.next_token Op) (pagination.set_token Op)).
Notation walk := (@runs.walk Op).
Notation fetched := (@runs.fetched Op).

(** What the goroutine never touches in its request stays as it was. *)
Lemma run_req_invariant (Q : Req -> Prop) :
  (forall r t, Q r -> Q (set_token Op r t)) ->
  forall (os : list (oracle Resp)) (s s' : state),
    run os s = Some s' -> Q (req s) -> Q (req s').
Proof.
  intros HQ os; induction os as [|o os IH]; simpl; intros s s' H Q0.
  - now injection H as <-.
  - destruct (step o s) as [s1|] eqn:E; [|discriminate].
    apply (IH s1 s' H).
    step_cases E; simpl; auto.
Qed.

Lemma walk_snoc (A : list (result (http.Response Resp)))
    (a : result (http.Response Resp)) (r r' : Req) :
  walk r A = Some r' ->
  walk r (A ++ [a])
  = match snd (fetch Op (fun _ => a) r') with
    | Ok resp => Some (set_token Op r' (next_token Op resp))
    | Err _ => None
    end.
Proof.
  revert r; induction A as [|b A IH]; simpl; intros r W.
  - injection W as <-. destruct (snd (fetch Op (fun _ => a) r)); reflexivity.
  - destruct (snd (fetch Op (fun _ => b) r)); [now apply IH | discriminate].
Qed.

Lemma fetched_snoc (A : list (result (http.Response Resp)))
    (a : result (http.Response Resp)) (r r' : Req) :
  walk r A = Some r' ->
  fetched r (A ++ [a])
  = fetched r A ++ match snd (fetch Op (fun _ => a) r') with
                   | Ok resp => [resp]
                   | Err _ => []
                   end.
Proof.
  revert r; induction A as [|b A IH]; simpl; intros r W.
  - injection W as <-. destruct (snd (fetch Op (fun _ => a) r)); reflexivity.
  - destruct (snd (fetch Op (fun _ => b) r)); [|discriminate].
    simpl. f_equal. now apply IH.
Qed.

Lemma step_in_order (r0 : Req) (os : list (oracle Resp)) (o : oracle Resp)
    (s s' : state) :
  step o s = Some s' -> @runs.in_order Op r0 os s ->
  @runs.in_order Op r0 (os ++ [o]) s'.
Proof.
  intros E I. unfold runs.in_order in *. rewrite (answers_app Op).
  step_cases E; simpl in *; rewrite ?app_nil_r;
    repeat match goal with
      | H : at_ _ = _ |- _ => rewrite H in I
      end;
    try exact I;
    rewrite ?(sent_app Op), ?(sent_io Op), ?app_nil_r; simpl;
    repeat match goal with
      | H : exists _, _ |- _ => destruct H
      | H : _ /\ _ |- _ => destruct H
      end;
    eauto.
  - (* at the top of the loop, cancelled *)
    exists []. now rewrite app_nil_r.
  - (* the last item of the page has been sent, on to the next *)
    match goal with
    | A : answers _ = _ ++ [_], W : walk _ _ = Some _, F : snd _ = Ok _ |- _ =>
        rewrite A at 1; rewrite (walk_snoc _ _ _ _ W), F; split;
        [reflexivity | rewrite app_nil_r in *; congruence]
    end.
  - (* the fetch yields a page *)
    match goal with
    | F : fetch Op _ _ = _, W : walk _ _ = Some _ |- _ =>
        eexists _, _; split; [reflexivity|]; split; [exact W|];
        rewrite F; split; [reflexivity|];
        rewrite (fetched_snoc _ _ _ _ W), F; simpl;
        rewrite map_app, concat_app; simpl; rewrite app_nil_r; congruence
    end.
  - (* the fetch fails *)
    match goal with
    | F : fetch Op _ _ = _, W : walk _ _ = Some _ |- _ =>
        exists []; rewrite (fetched_snoc _ _ _ _ W), F; simpl;
        rewrite !app_nil_r; congruence
    end.
  - (* an item is sent *)
    eexists _, _. repeat split; eauto.
    rewrite <- app_assoc. simpl. congruence.
Qed.

Lemma go_in_order (r0 : Req) (os : list (oracle Resp)) (s : state) :
  go Op r0 os = Some s -> @runs.in_order Op r0 os s.
Proof.
  revert s; induction os as [|o os IH] using rev_ind; intros s G.
  - injection G as <-. split; reflexivity.
  - apply run_snoc in G. destruct G as (s1 & G1 & E).
    eapply step_in_order; eauto.
Qed.

End Order.

(** X5. Under every schedule, with cancellations, failures and a consumer
    of any pace, what the consumer has received from the item channel is
    a beginning of the items of the pages fetched so far, in the order of
    the pages and of the items in them: nothing is sent twice, nothing
    out of order, and only the end may be missing. *)
Theorem items_arrive_in_page_order :
  forall (P : operation) (r0 : Req P) os (s : State P),
    go P r0 os = Some s ->
    exists missing,
      received (itemCh s) ++ missing
      = List.concat (map (items P) (@runs.fetched P r0 (answers os))).
Proof.
  intros P r0 os s G.
  destruct (go_invariants P r0 os s G) as [(_ & _ & I & _) _].
  pose proof (go_in_order P r0 os s G) as O.
  unfold runs.in_order in O. rewrite I.
  destruct (at_ s).
  - exists []. rewrite app_nil_r. apply O.
  - exists []. rewrite app_nil_r. apply O.
  - exact O.
  - destruct O as (A & a & _ & _ & _ & O). eauto.
  - exact O.
  - exact O.
Qed.

Lemma items_arrive_in_page_order_witness :
  exists s,
    albums.List example.first_request
      [Tick _; Answer (page_response example.page1); RecvItem _;
       Cancel _; PickDone _; Tick _] = Some s
    /\ received (itemCh s) = [example.album "A"]
    /\ exists missing,
         received (itemCh s) ++ missing
         = [example.album "A"; example.album "B"].
Proof.
  destruct (albums.List example.first_request
              [Tick _; Answer (page_response example.page1); RecvItem _;
               Cancel _; PickDone _; Tick _])
    as [s|] eqn:G; [|vm_compute in G; discriminate G].
  destruct (items_arrive_in_page_order albums.List_op example.first_request
              _ s G) as (missing & M).
  exists s. split; [reflexivity|].
  split; [vm_compute in G; injection G as <-; reflexivity|].
  exists missing. exact M.
Defined.

(** X6. The goroutine changes nothing in its copy of the request but the
    page token: under every schedule the page size and the exclusion flag
    of a list request, and the album, the page size and the ordering of a
    search request, are those the caller gave. *)
Theorem only_the_page_token_changes :
  (forall r0 os s,
      albums.List r0 os = Some s ->
      albums.PageSize (req s) = albums.PageSize r0
      /\ albums.ExcludeNonAppCreatedData (req s)
         = albums.ExcludeNonAppCreatedData r0)
  /\ (forall r0 os s,
         mediaitems.List r0 os = Some s ->
         mediaitems.PageSize (req s) = mediaitems.PageSize r0
         /\ mediaitems.ExcludeNonAppCreatedData (req s)
            = mediaitems.ExcludeNonAppCreatedData r0)
  /\ (forall r0 os s,
         mediaitems.Search r0 os = Some s ->
         mediaitems.SAlbumID (req s) = mediaitems.SAlbumID r0
         /\ mediaitems.SPageSize (req s) = mediaitems.SPageSize r0
         /\ mediaitems.SOrderBy (req s) = mediaitems.SOrderBy r0).
Proof.
  split; [|split]; intros r0 os s G.
  - apply (run_req_invariant albums.List_op
             (fun r => albums.PageSize r = albums.PageSize r0
                       /\ albums.ExcludeNonAppCreatedData r
                          = albums.ExcludeNonAppCreatedData r0)
             (fun r t H => H) os _ s G).
    split; reflexivity.
  - apply (run_req_invariant mediaitems.List_op
             (fun r => mediaitems.PageSize r = mediaitems.PageSize r0
                       /\ mediaitems.ExcludeNonAppCreatedData r
                          = mediaitems.ExcludeNonAppCreatedData r0)
             (fun r t H => H) os _ s G).
    split; reflexivity.
  - apply (run_req_invariant mediaitems.Search_op
             (fun r => mediaitems.SAlbumID r = mediaitems.SAlbumID r0
                       /\ mediaitems.SPageSize r = mediaitems.SPageSize r0
                       /\ mediaitems.SOrderBy r = mediaitems.SOrderBy r0)
             (fun r t H => H) os _ s G).
    repeat split.
Qed.

Lemma only_the_page_token_changes_witness :
  exists s,
    albums.List
      {| albums.PageSize := 50; albums.PageToken := "";
         albums.ExcludeNonAppCreatedData := true |}
      [Tick _; Answer (page_response example.page1); RecvItem _; RecvItem _;
       Tick _] = Some s
    /\ albums.PageToken (req s) = "x"
    /\ albums.PageSize (req s) = 50%Z
    /\ albums.ExcludeNonAppCreatedData (req s) = true.
Proof.
  destruct (albums.List
              {| albums.PageSize := 50; albums.PageToken := "";
                 albums.ExcludeNonAppCreatedData := true |}
              [Tick _; Answer (page_response example.page1); RecvItem _;
               RecvItem _; Tick _])
    as [s|] eqn:G; [|vm_compute in G; discriminate G].
  destruct only_the_page_token_changes as [A _].
  destruct (A _ _ s G) as [S E].
  exists s. split; [reflexivity|].
  split; [vm_compute in G; injection G as <-; reflexivity|].
  split; assumption.
Defined.

(* ================================================================== *)
(** * The body of a search request *)

Lemma marshal_SearchMediaItemRequest (r : mediaitems.SearchMediaItemRequest) :
  json.marshal (mediaitems.SearchMediaItemRequest_value r)
  = json.Object
      ((if String.eqb (mediaitems.SAlbumID r) "" then []
        else [("albumId", json.Str (mediaitems.SAlbumID r))])
       ++ (if Z.eqb (mediaitems.SPageSize r) 0 then []
           else [("pageSize", json.Number (mediaitems.SPageSize r))])
       ++ [("PageToken", json.Str (mediaitems.SPageToken r));
           ("filters", json.Object [])]
       ++ (if String.eqb (mediaitems.SOrderBy r) "" then []
           else [("orderBy", json.Str (mediaitems.SOrderBy r))])).
Proof.
  destruct r as [a n t f o]. cbn.
  destruct (String.eqb a ""), (Z.eqb n 0), (String.eqb o ""); reflexivity.
Qed.

(** X7. Whatever the transport, the one request a search fetch executes is
    a GET of [v1/mediaItems:search] without query whose JSON body holds
    the album under [albumId], the page size under [pageSize] and the
    ordering under [orderBy] only when they are not zero, an empty object
    under [filters] always, and the page token always, empty or not, under
    the key [PageToken] (the tag of that field is not well formed, so the
    name of the Go field is used and nothing is omitted). *)
Theorem search_request_body :
  forall (c : http.Client mediaitems.SearchMediaItemResponse)
         (r : mediaitems.SearchMediaItemRequest),
    exists tail,
      fst (mediaitems.search c r)
      = EDo {| http.Method := "GET";
               http.URL :=
                 {| url.Scheme := "https";
                    url.Host := "photoslibrary.googleapis.com";
                    url.Path := "v1/mediaItems:search";
                    url.RawQuery := "" |};
               http.ReqBody :=
                 Some
                   (json.Object
                      ((if String.eqb (mediaitems.SAlbumID r) "" then []
                        else [("albumId", json.Str (mediaitems.SAlbumID r))])
                       ++ (if Z.eqb (mediaitems.SPageSize r) 0 then []
                           else [("pageSize",
                                  json.Number (mediaitems.SPageSize r))])
                       ++ [("PageToken", json.Str (mediaitems.SPageToken r));
                           ("filters", json.Object [])]
                       ++ (if String.eqb (mediaitems.SOrderBy r) "" then []
                           else [("orderBy",
                                  json.Str (mediaitems.SOrderBy r))]))) |}
        :: tail.
Proof.
  intros c r. rewrite <- marshal_SearchMediaItemRequest.
  unfold mediaitems.search, Do, Decode, Close, lift, bind; simpl.
  destruct (c _) as [[code [[page|e] [e'|]]]|e'']; simpl; eauto.
Qed.

(* ================================================================== *)
(** * The login *)

(** X8. When the random bytes are read, the redirect URL parses and the
    listener shuts down, [NewClient] gives the token exchange the [code]
    parameter of the first callback that reaches the listener, whatever
    the state of that callback and even when it carries no code at all
    (then the empty string), answers that callback with 200, serves no
    other callback, and returns what the exchange returns. *)
Theorem NewClient_exchanges_first_callback :
  forall (w : oauth2.world) (b : list Byte.byte) (rawQuery : string)
         (later : list string),
    oauth2.rand_Read w = Ok b ->
    oauth2.url_Parse w = None ->
    oauth2.callbacks w = rawQuery :: later ->
    oauth2.Shutdown w = None ->
    oauth2.NewClient w
    = {| oauth2.state_nonce := base64.EncodeToString b;
         oauth2.replies :=
           [{| oauth2.status := 200;
               oauth2.written := "Authenticated Successfully" |}];
         oauth2.exchanged := [url.Get (url.ParseQuery rawQuery) "code"];
         oauth2.returned :=
           Some (oauth2.Exchange w (url.Get (url.ParseQuery rawQuery) "code")) |}.
Proof.
  intros w b q later R U C S.
  unfold oauth2.NewClient. rewrite R, U, C. simpl.
  rewrite handler_accepts_any_state, S. reflexivity.
Qed.

Lemma NewClient_exchanges_first_callback_witness :
  oauth2.NewClient
    {| oauth2.rand_Read := Ok (repeat Byte.xff oauth2.stateSize);
       oauth2.url_Parse := None;
       oauth2.callbacks := ["error=access_denied"; "code=4/0Ab&state=__________8="];
       oauth2.Shutdown := None;
       oauth2.Exchange := fun code => Err ("oauth2: cannot fetch token for " ++ code)%string |}
  = {| oauth2.state_nonce := "_____________w==";
       oauth2.replies :=
         [{| oauth2.status := 200;
             oauth2.written := "Authenticated Successfully" |}];
       oauth2.exchanged := [""];
       oauth2.returned := Some (Err "oauth2: cannot fetch token for ") |}.
Proof.
  exact (NewClient_exchanges_first_callback
           {| oauth2.rand_Read := Ok (repeat Byte.xff oauth2.stateSize);
              oauth2.url_Parse := None;
              oauth2.callbacks :=
                ["error=access_denied"; "code=4/0Ab&state=__________8="];
              oauth2.Shutdown := None;
              oauth2.Exchange :=
                fun code => Err ("oauth2: cannot fetch token for " ++ code)%string |}
           _ _ _ eq_refl eq_refl eq_refl eq_refl).
Defined.

(* ================================================================== *)
(** * The goroutine against a transport *)

Section Collect.

Variable Op : operation.
Variable c : http.Client (Resp Op).

(** The fetch asks the transport once, with the request of the operation. *)
Hypothesis fetch_asks_once : forall (r : Req Op),
  fetch Op (fun _ => c (request Op r)) r = fetch Op c r.

Notation served := (@runs.served Op c).
Notation collect := (@runs.collect Op c).
Notation to_come := (pagination.to_come (fetch Op) (items Op) (next_token Op)
                       (set_token Op)).

Lemma to_come_served (n : nat) (r : Req Op) :
  sent (to_come r (served r n)) = fst (collect r n)
  /\ errors (to_come r (served r n))
     = match snd (collect r n) with
       | runs.Broken e => [e]
       | _ => []
       end
  /\ closes (to_come r (served r n))
     = match snd (collect r n) with
       | runs.Unfinished => 0%nat
       | _ => 1%nat
       end.
Proof.
  revert r; induction n as [|n IH]; intros r; [repeat split|].
  simpl. rewrite fetch_asks_once.
  destruct (fetch Op c r) as [effs [resp|e]]; simpl.
  - rewrite (sent_app Op), (errors_app Op), (closes_app Op), (sent_io Op),
      (errors_io Op), (closes_io Op). simpl.
    rewrite (sent_app Op), (errors_app Op), (closes_app Op), (sent_sends Op),
      (errors_sends Op), (closes_sends Op). simpl.
    destruct (String.eqb (next_token Op resp) "").
    + simpl. rewrite app_nil_r. auto.
    + destruct (IH (set_token Op r (next_token Op resp))) as (S & E & C).
      rewrite S, E, C.
      destruct (collect (set_token Op r (next_token Op resp)) n). auto.
  - rewrite (sent_app Op), (errors_app Op), (closes_app Op), (sent_io Op),
      (errors_io Op), (closes_io Op). auto.
Qed.

End Collect.

Lemma operations_fetch_asks_once (P : operation) :
  In P operations ->
  forall (c : http.Client (Resp P)) (r : Req P),
    fetch P (fun _ => c (request P r)) r = fetch P c r.
Proof.
  intros [<-|[<-|[<-|[]]]] c r; reflexivity.
Qed.

(** X9. Run to its end against a transport [c], without cancellation and
    with a consumer that takes everything, each of the three operations
    delivers what the plain loop [collect] computes from [c]: the same
    items in the same order, the error of the first failing fetch on the
    error channel if there is one, and no error otherwise. *)
Theorem goroutine_delivers_what_the_loop_collects :
  forall P, In P operations ->
  forall (c : http.Client (Resp P)) (r0 : Req P) os (s : State P),
    go P r0 os = Some s ->
    no_cancel os = true ->
    answers os = @runs.served P c r0 (List.length (answers os)) ->
    exited s = true ->
    received (itemCh s) = fst (@runs.collect P c r0 (List.length (answers os)))
    /\ (received (errCh s) = []
        /\ snd (@runs.collect P c r0 (List.length (answers os))) = runs.Complete
        \/ exists e,
             received (errCh s) = [e]
             /\ snd (@runs.collect P c r0 (List.length (answers os)))
                = runs.Broken e).
Proof.
  intros P HP c r0 os s G NC A X.
  destruct (go_invariants P r0 os s G) as [(_ & _ & I & E & C) _].
  pose proof (exited_trace P r0 os s G NC X) as T.
  rewrite A in T.
  destruct (to_come_served P c (operations_fetch_asks_once P HP c)
              (List.length (answers os)) r0) as (S' & E' & C').
  rewrite <- T in S', E', C'. rewrite X in C.
  split; [congruence|].
  destruct (snd (@runs.collect P c r0 (List.length (answers os)))).
  - left. split; congruence.
  - right. exists err. split; congruence.
  - congruence.
Qed.




Lemma goroutine_delivers_what_the_loop_collects_witness :
  exists os s,
    mediaitems.Search example.searchReq os = Some s
    /\ answers os
       = @runs.served mediaitems.Search_op
           (mediaitems.test_client example.searchResponses)
           example.searchReq 2
    /\ received (itemCh s)
       = [example.media_item "test-a"; example.media_item "test-b"]
    /\ received (errCh s) = [].
Proof.
  pose (os := [Tick mediaitems.SearchMediaItemResponse;
               Answer (mediaitems.test_client example.searchResponses
                         (mediaitems.search_request example.searchReq));
               RecvItem _; Tick _; Tick _;
               Answer (mediaitems.test_client example.searchResponses
                         (mediaitems.search_request
                            (mediaitems.set_SPageToken example.searchReq "a")));
               RecvItem _; Tick _; Tick _]).
  destruct (mediaitems.Search example.searchReq os) as [s|] eqn:G;
    [|vm_compute in G; discriminate G].
  assert (X : exited s = true)
    by (vm_compute in G; injection G as <-; reflexivity).
  destruct (goroutine_delivers_what_the_loop_collects mediaitems.Search_op
              (or_intror (or_intror (or_introl eq_refl)))
              (mediaitems.test_client example.searchResponses)
              example.searchReq os s G eq_refl eq_refl X) as [I E].
  exists os, s. split; [exact G|]. split; [reflexivity|].
  split; [exact I|].
  destruct E as [[E _]|(e & _ & B)]; [exact E|].
  vm_compute in B. discriminate B.
Defined.

(* ================================================================== *)
(** * [Get] and [Create] *)

(** One [Write] into a fresh writer: a text of at most the buffer size
    stays in the writer, a longer one goes straight through. *)
Lemma Write_fresh (p : string) :
  bufio.Write (bufio.NewWriter "") p
  = if (String.length p <=? 4096)%nat
    then {| bufio.under := ""; bufio.held := p |}
    else {| bufio.under := p; bufio.held := "" |}.
Proof.
  unfold bufio.Write, bufio.NewWriter.
  change (2 + String.length p)%nat with (S (S (String.length p))).
  cbn [bufio.write_loop].
  unfold bufio.Available, bufio.Buffered. cbn [bufio.held bufio.under].
  change (String.length "") with 0%nat. rewrite Nat.sub_0_r.
  change bufio.defaultBufSize with 4096%nat.
  destruct (Nat.ltb_spec 4096 (String.length p)) as [L|L];
    destruct (Nat.leb_spec (String.length p) 4096) as [L'|L']; try lia.
  - cbn [Nat.eqb bufio.held bufio.under String.length].
    destruct (Nat.ltb_spec (4096 - 0) 0); [lia|]. reflexivity.
  - reflexivity.
Qed.

(** X11. [Create] writes the JSON of the album into a [bufio.Writer] that
    it never flushes and hands the buffer under it to the request: the
    POST it executes to [v1/albums] has an empty body whenever the JSON
    text is at most 4096 bytes long (the size of the writer), and the
    whole text otherwise. *)
Theorem Create_sends_the_unflushed_buffer :
  forall (json_Encode : albums.CreateAlbumRequest -> string)
         (c : albums.PostRequest -> result (http.Response albums.CreateAlbumResponse))
         (r : albums.CreateAlbumRequest),
    exists tail,
      fst (albums.Create json_Encode c r)
      = albums.PDo
          {| albums.PMethod := "POST";
             albums.PURL := {| url.Scheme := "https";
                               url.Host := "photoslibrary.googleapis.com";
                               url.Path := "v1/albums";
                               url.RawQuery := "" |};
             albums.PBody :=
               if (String.length (json_Encode r) <=? 4096)%nat then ""
               else json_Encode r |} :: tail.
Proof.
  intros enc c r. unfold albums.Create. cbn [url.JoinPath].
  rewrite Write_fresh.
  destruct (String.length (enc r) <=? 4096)%nat; cbn [bufio.under];
    destruct (c _) as [[code [[page|e] ce]]|e']; simpl; eauto.
Qed.

(** X12. [Get] of an album, [Get] of a media item and [Create] execute
    exactly one request once the path is joined, and close the body of
    the response exactly when the transport answered and the body
    decoded: a body that does not decode is left open. *)
Theorem single_calls_close_only_what_decoded :
  forall (url_JoinPath : string -> list string -> result string)
         (json_Encode : albums.CreateAlbumRequest -> string)
         (ca : http.Client albums.GetAlbumResponse)
         (cm : http.Client mediaitems.GetMediaItemResponse)
         (cc : albums.PostRequest -> result (http.Response albums.CreateAlbumResponse))
         (ra : albums.GetAlbumRequest) (rm : mediaitems.GetMediaItemRequest)
         (rc : albums.CreateAlbumRequest) (pa pm : string),
    url_JoinPath "v1" ["albums"; albums.AlbumID ra] = Ok pa ->
    url_JoinPath "v1" ["mediaItems"; mediaitems.MediaItemID rm] = Ok pm ->
    (exists req,
        fst (albums.Get url_JoinPath ca ra)
        = EDo req :: (if http.answered_and_decoded (ca req) then [EClose] else [])
        /\ url.Path (http.URL req) = pa /\ http.Method req = "GET")
    /\ (exists req,
           fst (mediaitems.Get url_JoinPath cm rm)
           = EDo req :: (if http.answered_and_decoded (cm req) then [EClose] else [])
           /\ url.Path (http.URL req) = pm /\ http.Method req = "GET")
    /\ (exists req,
           fst (albums.Create json_Encode cc rc)
           = albums.PDo req
             :: (if http.answered_and_decoded (cc req) then [albums.PClose] else [])
           /\ url.Path (albums.PURL req) = "v1/albums"
           /\ albums.PMethod req = "POST").
Proof.
  intros jp enc ca cm cc ra rm rc pa pm Ja Jm.
  unfold albums.Get, mediaitems.Get, albums.Create, http.answered_and_decoded.
  cbn [url.JoinPath].
  change api.PhotosLibraryVersion with "v1".
  change albums.GetAlbumPath with "albums".
  change mediaitems.ListMediaItemsPath with "mediaItems".
  rewrite Ja, Jm.
  split; [|split].
  - match goal with
    | |- context [match ca ?q with Ok _ => _ | Err _ => _ end] =>
        exists q; destruct (ca q) as [[code [[page|e] ce]]|e']
    end; simpl; repeat split.
  - match goal with
    | |- context [match cm ?q with Ok _ => _ | Err _ => _ end] =>
        exists q; destruct (cm q) as [[code [[page|e] ce]]|e']
    end; simpl; repeat split.
  - match goal with
    | |- context [match cc ?q with Ok _ => _ | Err _ => _ end] =>
        exists q; destruct (cc q) as [[code [[page|e] ce]]|e']
    end; simpl; repeat split.
Qed.

Lemma single_calls_close_only_what_decoded_witness :
  exists req,
    fst (albums.Get url.JoinPath (fun _ => Ok (example.garbled _))
           {| albums.AlbumID := "AGj1epU" |})
    = [EDo req]
    /\ url.Path (http.URL req) = "v1/albums/AGj1epU"
    /\ http.Method req = "GET".
Proof.
  destruct (single_calls_close_only_what_decoded url.JoinPath
              (fun _ => "{}") (fun _ => Ok (example.garbled _))
              (fun _ => Ok (example.garbled _))
              (fun _ => Ok (example.garbled _))
              {| albums.AlbumID := "AGj1epU" |}
              {| mediaitems.MediaItemID := "AGj1epU" |}
              {| albums.CreateAlbum := example.album "A" |}
              "v1/albums/AGj1epU" "v1/mediaItems/AGj1epU" eq_refl eq_refl)
    as [(req & E & Pth & M) _].
  exists req. split; [exact E | split; [exact Pth | exact M]].
Defined.
